(** * web_scr: the acquisition client, the tabular store and the batch
      orchestrator of the real-estate data collector

    Shallow embedding of [src/utils/perplexity_api.py],
    [src/utils/data_writer.py] and [src/app.py].

    Text is modelled by Rocq strings of 8-bit characters.  The character
    classes [\w] and [\s] and [str.strip] are the ASCII ones, which is what
    Python's Unicode-aware classes are on text whose code points are all
    below 128.  A code point above 127 is held as the bytes of its UTF-8
    encoding, which is how the JSON reader decodes an escape; a surrogate
    code point, which has no UTF-8 encoding, is held as the three bytes
    the same scheme gives it, and a text that holds one cannot be written
    to a file opened with [encoding="utf-8"].

    What the program takes from outside (the answers of the remote
    service, the clock, pandas' rewriting of data cells, Python's [repr] of
    strings and floats, the wording of [JSONDecodeError] and of
    [UnicodeEncodeError]) is a variable of the section [Program]: the
    theorems hold whatever these are. *)

From Stdlib Require Import ZArith String Ascii List Bool Lia DecimalString.
From stdpp Require Import gmap strings list.

Import ListNotations.
Local Open Scope string_scope.
Local Open Scope nat_scope.
Local Open Scope list_scope.

(** ** Characters and Python's string methods *)

Definition dquote : ascii := "034"%char.
Definition squote : ascii := "039"%char.
Definition backslash : ascii := "092"%char.
Definition backtick : ascii := "096"%char.
Definition newline : ascii := "010"%char.

Definition code (c : ascii) : nat := nat_of_ascii c.

Definition between (lo hi : nat) (c : ascii) : bool :=
  (lo <=? code c) && (code c <=? hi).

(** [str.isspace] and the class [\s]: tab to carriage return, the four
    separators 28..31, and the space. *)
Definition is_space (c : ascii) : bool :=
  between 9 13 c || between 28 31 c || (code c =? 32).

Definition is_digit (c : ascii) : bool := between 48 57 c.

(** The class [\w]: letters, digits and the underscore. *)
Definition is_word (c : ascii) : bool :=
  is_digit c || between 65 90 c || between 97 122 c || (code c =? 95).

Definition is_char (a c : ascii) : bool := Ascii.eqb a c.

Definition chars (s : string) : list ascii := list_ascii_of_string s.
Definition str_of (l : list ascii) : string := string_of_list_ascii l.

Fixpoint lstrip_with (p : ascii -> bool) (l : list ascii) : list ascii :=
  match l with
  | c :: t => if p c then lstrip_with p t else l
  | [] => []
  end.

Definition strip_with (p : ascii -> bool) (l : list ascii) : list ascii :=
  rev (lstrip_with p (rev (lstrip_with p l))).

(** [s.strip()] *)
Definition py_strip (s : string) : string := str_of (strip_with is_space (chars s)).

(** [s.strip(cs)] *)
Definition py_strip_chars (cs : string) (s : string) : string :=
  str_of (strip_with (fun c => existsb (is_char c) (chars cs)) (chars s)).

(** [s.startswith(p)] *)
Fixpoint starts_with (p l : list ascii) : bool :=
  match p, l with
  | [], _ => true
  | a :: p', b :: l' => Ascii.eqb a b && starts_with p' l'
  | _ :: _, [] => false
  end.

Definition py_startswith (p s : string) : bool := starts_with (chars p) (chars s).

(** [s.replace(a, b)] for one-character [a] and [b]. *)
Definition py_replace_char (a b : ascii) (s : string) : string :=
  str_of (map (fun c => if Ascii.eqb c a then b else c) (chars s)).

(** [sep.join(parts)] *)
Fixpoint py_join (sep : string) (parts : list string) : string :=
  match parts with
  | [] => ""
  | [p] => p
  | p :: rest => p +:+ sep +:+ py_join sep rest
  end.

(** [s.split(sep)] for a one-character separator. *)
Fixpoint split_on (sep : ascii) (l : list ascii) : list (list ascii) :=
  match l with
  | [] => [[]]
  | c :: t =>
      if Ascii.eqb c sep then [] :: split_on sep t
      else match split_on sep t with
           | cur :: rest => (c :: cur) :: rest
           | [] => [[c]]
           end
  end.


(** [os.path.basename(path)]: what follows the last separator. *)
Definition basename (path : string) : string :=
  str_of (List.last (split_on "/" (chars path)) []).

(** A path that names a directory whatever the files are: nothing follows
    its last separator, or one of the two directory entries does.  Once
    [os.makedirs] has made the directory part, such a path is a directory,
    and [open] raises [IsADirectoryError] on it. *)
Definition names_directory (path : string) : bool :=
  String.eqb (basename path) "" || String.eqb (basename path) "."
  || String.eqb (basename path) "..".

(** [s.encode("utf-8")] returns: no surrogate code point in the text.  In
    the bytes that hold the text, a surrogate is the byte 237 followed by
    a byte from 160 to 191. *)
Fixpoint has_surrogate (l : list ascii) : bool :=
  match l with
  | [] => false
  | a :: t =>
      match t with
      | b :: _ => (code a =? 237) && between 160 191 b
      | [] => false
      end || has_surrogate t
  end.

Definition encodable (s : string) : bool := negb (has_surrogate (chars s)).

(** ** A backtracking matcher for the regular expressions of the program

    The constructors cover what the four patterns of
    [perplexity_api.py] use.  [rmatch] explores alternatives in the order
    of Python's [re] (a greedy star tries one more iteration first, a lazy
    star tries to stop first), with the rest of the pattern as a
    continuation. *)

Inductive regex : Type :=
| Class (p : ascii -> bool)          (* one character of a class *)
| Cat (a b : regex)                  (* a b *)
| Star (a : regex)                   (* a*  *)
| LazyStar (a : regex)               (* a*? *)
| Group (i : nat) (a : regex)        (* the i-th capturing group (a) *)
| Eos                                (* $ *)
| Ahead (a : regex)                  (* (?=a) *)
| NotBehind (p : ascii -> bool).     (* (?<!c) for a one-character class *)

Definition Plus (a : regex) : regex := Cat a (Star a).

Record mstate : Type := MState {
  m_prev : option ascii;             (* the character before the position *)
  m_pos : nat;                       (* the position in the subject *)
  m_rest : list ascii;               (* the subject from the position on *)
  m_caps : list (nat * list ascii)   (* captured groups, latest first *)
}.

Definition advance (c : ascii) (t : list ascii) (s : mstate) : mstate :=
  MState (Some c) (S (m_pos s)) t (m_caps s).

Definition capture (i : nat) (s0 s1 : mstate) : mstate :=
  MState (m_prev s1) (m_pos s1) (m_rest s1)
         ((i, firstn (m_pos s1 - m_pos s0) (m_rest s0)) :: m_caps s1).

(** [$] without MULTILINE: the end of the subject, or just before a newline
    that ends it. *)
Definition at_eos (rest : list ascii) : bool :=
  match rest with
  | [] => true
  | [c] => Ascii.eqb c newline
  | _ => false
  end.

Fixpoint rmatch (r : regex) (s : mstate) (k : mstate -> option mstate)
  {struct r} : option mstate :=
  match r with
  | Class p =>
      match m_rest s with
      | c :: t => if p c then k (advance c t s) else None
      | [] => None
      end
  | Cat a b => rmatch a s (fun s1 => rmatch b s1 k)
  | Star a =>
      (fix iter (n : nat) (s0 : mstate) {struct n} : option mstate :=
         match n with
         | O => k s0
         | S n' =>
             match rmatch a s0 (fun s1 => if m_pos s0 <? m_pos s1
                                          then iter n' s1 else None) with
             | Some out => Some out
             | None => k s0
             end
         end) (length (m_rest s)) s
  | LazyStar a =>
      (fix iter (n : nat) (s0 : mstate) {struct n} : option mstate :=
         match n with
         | O => k s0
         | S n' =>
             match k s0 with
             | Some out => Some out
             | None => rmatch a s0 (fun s1 => if m_pos s0 <? m_pos s1
                                              then iter n' s1 else None)
             end
         end) (length (m_rest s)) s
  | Group i a => rmatch a s (fun s1 => k (capture i s s1))
  | Eos => if at_eos (m_rest s) then k s else None
  | Ahead a =>
      match rmatch a s Some with
      | Some s1 => k (MState (m_prev s) (m_pos s) (m_rest s) (m_caps s1))
      | None => None
      end
  | NotBehind p =>
      match m_prev s with
      | Some c => if p c then None else k s
      | None => k s
      end
  end.

(** Replacement templates: literal text and group references [\i]. *)
Inductive repl_item : Type :=
| Lit (s : string)
| Ref (i : nat).

Fixpoint group_text (i : nat) (caps : list (nat * list ascii)) : list ascii :=
  match caps with
  | [] => []
  | (j, t) :: rest => if i =? j then t else group_text i rest
  end.

Definition expand (tpl : list repl_item) (s : mstate) : list ascii :=
  flat_map (fun it => match it with
                      | Lit t => chars t
                      | Ref i => group_text i (m_caps s)
                      end) tpl.

(** [re.sub]: the leftmost match at each position is replaced and the scan
    goes on after it; where nothing matches one character is copied.  None
    of the program's patterns matches the empty string. *)
Fixpoint sub_scan (n : nat) (r : regex) (tpl : list repl_item)
  (prev : option ascii) (pos : nat) (rest : list ascii) : list ascii :=
  match n with
  | O => rest
  | S n' =>
      let copy :=
        match rest with
        | [] => []
        | c :: t => c :: sub_scan n' r tpl (Some c) (S pos) t
        end in
      match rmatch r (MState prev pos rest []) Some with
      | Some s1 =>
          if pos <? m_pos s1
          then expand tpl s1 ++ sub_scan n' r tpl (m_prev s1) (m_pos s1) (m_rest s1)
          else expand tpl s1 ++ copy
      | None => copy
      end
  end.

Definition re_sub (r : regex) (tpl : list repl_item) (s : string) : string :=
  str_of (sub_scan (S (String.length s)) r tpl None 0 (chars s)).

(** [.] matches every character but the newline. *)
Definition dot : regex := Class (fun c => negb (Ascii.eqb c newline)).

(** ** utils/perplexity_api.py: helpers *)

(** [[^\w\s]] *)
Definition re_punct : regex := Class (fun c => negb (is_word c || is_space c)).

(** [\s+] *)
Definition re_spaces : regex := Plus (Class is_space).

Definition clean_project_name (name : string) : string :=
  let cleaned := re_sub re_punct [Lit " "] name in
  py_strip (re_sub re_spaces [Lit " "] cleaned).

(** [([{,])\s*(\w+):] *)
Definition re_bare_key : regex :=
  Cat (Group 1 (Class (fun c => is_char "{" c || is_char "," c)))
      (Cat (Star (Class is_space))
           (Cat (Group 2 (Plus (Class is_word))) (Class (is_char ":")))).

(** [(?<!\\)Q(?=(.*?Q.*?)*?$)], where Q stands for the double quote. *)
Definition re_open_quote : regex :=
  Cat (NotBehind (is_char backslash))
      (Cat (Class (is_char dquote))
           (Ahead (Cat (LazyStar (Group 1 (Cat (LazyStar dot)
                                               (Cat (Class (is_char dquote))
                                                    (LazyStar dot)))))
                       Eos))).

Definition dq : string := String dquote EmptyString.
Definition bs : string := String backslash EmptyString.

Definition fix_json_string (json_str : string) : string :=
  let json_str := re_sub re_bare_key [Ref 1; Lit dq; Ref 2; Lit (dq +:+ ":")] json_str in
  let json_str := py_replace_char squote dquote json_str in
  let json_str := re_sub re_open_quote [Lit (bs +:+ dq)] json_str in
  json_str.

(** The literal the program uses wherever a value is not known. *)
Definition sentinel : string := "Information not available".

(** The field schema; [perplexity_api.py] and [data_writer.py] both define
    it, with the same list. *)
Definition get_required_fields : list string :=
  [ "Project Name";
    "Project Price per SFT";
    "total Price";
    "Possession (Year & Month)";
    "Location";
    "Builder Reputation & Legal Compliance";
    "Property Type & Space Utilization";
    "Open Space";
    "Safety & Security";
    "Quality of Construction";
    "Home Loan & Financing Options";
    "Orientation";
    "Configuration (2BHK, 3BHK, etc.)";
    "Source URLs";
    "Why" ].
Arguments get_required_fields : simpl never.

(** ** Python values and dictionaries

    The values [json.loads] builds.  A float keeps the text it was read
    from; dictionaries keep insertion order, as Python's do. *)

#[warnings="-register-all"]
Inductive pyval : Type :=
| PNone
| PBool (b : bool)
| PInt (z : Z)
| PFloat (lexeme : string)
| PStr (s : string)
| PList (l : list pyval)
| PDict (d : list (string * pyval)).

Section Dict.
Context {V : Type}.

(** [d.get(k)] *)
Fixpoint dict_get (k : string) (d : list (string * V)) : option V :=
  match d with
  | [] => None
  | (k', v) :: rest => if String.eqb k k' then Some v else dict_get k rest
  end.

(** [k in d] *)
Definition dict_mem (k : string) (d : list (string * V)) : bool :=
  match dict_get k d with Some _ => true | None => false end.

(** [d[k] = v]: an existing key keeps its place, a new one goes last. *)
Fixpoint dict_set (k : string) (v : V) (d : list (string * V)) : list (string * V) :=
  match d with
  | [] => [(k, v)]
  | (k', v') :: rest =>
      if String.eqb k k' then (k, v) :: rest else (k', v') :: dict_set k v rest
  end.

(** [d.setdefault(k, v)] *)
Definition dict_setdefault (k : string) (v : V) (d : list (string * V)) : list (string * V) :=
  if dict_mem k d then d else dict_set k v d.

(** [d.get(k, default)] *)
Definition dict_get_or (k : string) (default : V) (d : list (string * V)) : V :=
  match dict_get k d with Some v => v | None => default end.

Definition dict_keys (d : list (string * V)) : list string := map fst d.
End Dict.

(** ** json.loads

    A recursive-descent reading of the grammar the [json] module accepts:
    whitespace is space, tab, newline and carriage return; strings are
    strict (no control characters); the constants include [NaN],
    [Infinity] and [-Infinity]; a repeated key keeps its first place and
    its last value. *)

Inductive scan (A : Type) : Type :=
| Ok (a : A) (rest : list ascii)
| Bad                              (* the text is not JSON *)
| Starved.                         (* the recursion bound was reached *)
Arguments Ok {A} a rest.
Arguments Bad {A}.
Arguments Starved {A}.

Definition is_json_ws (c : ascii) : bool :=
  (code c =? 32) || (code c =? 9) || (code c =? 10) || (code c =? 13).

Definition skip_ws (l : list ascii) : list ascii := lstrip_with is_json_ws l.

Definition hex_value (c : ascii) : option N :=
  if is_digit c then Some (N.of_nat (code c - 48))
  else if between 97 102 c then Some (N.of_nat (code c - 87))
  else if between 65 70 c then Some (N.of_nat (code c - 55))
  else None.

Definition hex4 (a b c d : ascii) : option N :=
  match hex_value a, hex_value b, hex_value c, hex_value d with
  | Some x, Some y, Some z, Some w => Some (((x * 16 + y) * 16 + z) * 16 + w)%N
  | _, _, _, _ => None
  end.

Definition byte (n : N) : ascii := ascii_of_N n.

(** The UTF-8 bytes of a code point, last byte first. *)
Definition utf8_rev (n : N) : list ascii :=
  if (n <? 128)%N then [byte n]
  else if (n <? 2048)%N then
    [byte (128 + n mod 64); byte (192 + n / 64)]%N
  else if (n <? 65536)%N then
    [byte (128 + n mod 64); byte (128 + (n / 64) mod 64); byte (224 + n / 4096)]%N
  else
    [byte (128 + n mod 64); byte (128 + (n / 64) mod 64);
     byte (128 + (n / 4096) mod 64); byte (240 + n / 262144)]%N.

Definition simple_escape (e : ascii) : option ascii :=
  if is_char dquote e then Some dquote
  else if is_char backslash e then Some backslash
  else if is_char "/" e then Some "/"%char
  else if is_char "b" e then Some "008"%char
  else if is_char "f" e then Some "012"%char
  else if is_char "n" e then Some newline
  else if is_char "r" e then Some "013"%char
  else if is_char "t" e then Some "009"%char
  else None.

Definition is_high_surrogate (n : N) : bool := (55296 <=? n)%N && (n <=? 56319)%N.
Definition is_low_surrogate (n : N) : bool := (56320 <=? n)%N && (n <=? 57343)%N.

(** The body of a string, after its opening quote; [acc] holds the decoded
    characters so far, last first. *)
Fixpoint scan_string (l : list ascii) (acc : list ascii) : scan string :=
  match l with
  | [] => Bad
  | c :: t =>
      if is_char dquote c then Ok (str_of (rev acc)) t
      else if is_char backslash c then
        match t with
        | [] => Bad
        | e :: t1 =>
            match simple_escape e with
            | Some x => scan_string t1 (x :: acc)
            | None =>
                if is_char "u" e then
                  match t1 with
                  | h1 :: h2 :: h3 :: h4 :: t2 =>
                      match hex4 h1 h2 h3 h4 with
                      | None => Bad
                      | Some u =>
                          match t2 with
                          | b1 :: b2 :: g1 :: g2 :: g3 :: g4 :: t3 =>
                              if is_high_surrogate u && is_char backslash b1 && is_char "u" b2
                              then match hex4 g1 g2 g3 g4 with
                                   | None => Bad
                                   | Some u2 =>
                                       if is_low_surrogate u2
                                       then scan_string t3
                                              (utf8_rev (65536 + (u - 55296) * 1024 + (u2 - 56320))%N ++ acc)
                                       else scan_string t2 (utf8_rev u ++ acc)
                                   end
                              else scan_string t2 (utf8_rev u ++ acc)
                          | _ => scan_string t2 (utf8_rev u ++ acc)
                          end
                      end
                  | _ => Bad
                  end
                else Bad
            end
        end
      else if code c <? 32 then Bad
      else scan_string t (c :: acc)
  end.

Fixpoint span_digits (l : list ascii) : list ascii * list ascii :=
  match l with
  | c :: t => if is_digit c then let (ds, r) := span_digits t in (c :: ds, r) else ([], l)
  | [] => ([], [])
  end.

Fixpoint digits_value (ds : list ascii) (acc : Z) : Z :=
  match ds with
  | [] => acc
  | c :: t => digits_value t (acc * 10 + Z.of_nat (code c - 48))%Z
  end.

(** A number: an optional minus sign, then 0 or a digit string without a
    leading 0, then an optional fraction (a point and digits) and an
    optional exponent (e or E, an optional sign, digits).  With a fraction
    or an exponent the value is a float, otherwise an int.  Each part is
    given with the text that follows it. *)
Definition take_sign (l : list ascii) : list ascii * list ascii :=
  match l with
  | c :: t => if is_char "-" c then ([c], t) else ([], l)
  | [] => ([], l)
  end.

Definition take_int (l : list ascii) : option (list ascii * list ascii) :=
  match l with
  | c :: t =>
      if is_char "0" c then Some ([c], t)
      else if is_digit c then let (ds, r) := span_digits t in Some (c :: ds, r)
      else None
  | [] => None
  end.

Definition take_frac (l : list ascii) : list ascii * list ascii :=
  match l with
  | p :: r =>
      if is_char "." p then
        match span_digits r with
        | ([], _) => ([], l)
        | (ds, r') => (p :: ds, r')
        end
      else ([], l)
  | [] => ([], l)
  end.

Definition take_exp_sign (l : list ascii) : list ascii * list ascii :=
  match l with
  | s :: r => if is_char "-" s || is_char "+" s then ([s], r) else ([], l)
  | [] => ([], l)
  end.

Definition take_exp (l : list ascii) : list ascii * list ascii :=
  match l with
  | e :: r =>
      if is_char "e" e || is_char "E" e then
        let (sg, r') := take_exp_sign r in
        match span_digits r' with
        | ([], _) => ([], l)
        | (ds, r'') => (e :: sg ++ ds, r'')
        end
      else ([], l)
  | [] => ([], l)
  end.

Definition scan_number (l : list ascii) : option (pyval * list ascii) :=
  let (sign, l1) := take_sign l in
  match take_int l1 with
  | None => None
  | Some (int_ds, r1) =>
      let (frac, r2) := take_frac r1 in
      let (exp, r3) := take_exp r2 in
      match frac, exp with
      | [], [] =>
          let v := digits_value int_ds 0 in
          Some (PInt (match sign with [] => v | _ => - v end)%Z, r3)
      | _, _ => Some (PFloat (str_of (sign ++ int_ds ++ frac ++ exp)), r3)
      end
  end.

Definition scan_constant (l : list ascii) : option (pyval * list ascii) :=
  if starts_with (chars "null") l then Some (PNone, skipn 4 l)
  else if starts_with (chars "true") l then Some (PBool true, skipn 4 l)
  else if starts_with (chars "false") l then Some (PBool false, skipn 5 l)
  else match scan_number l with
       | Some r => Some r
       | None =>
           if starts_with (chars "NaN") l then Some (PFloat "NaN", skipn 3 l)
           else if starts_with (chars "Infinity") l then Some (PFloat "Infinity", skipn 8 l)
           else if starts_with (chars "-Infinity") l then Some (PFloat "-Infinity", skipn 9 l)
           else None
       end.

Fixpoint scan_once (fuel : nat) (l : list ascii) {struct fuel} : scan pyval :=
  match fuel with
  | O => Starved
  | S f =>
      match l with
      | [] => Bad
      | c :: t =>
          if is_char dquote c then
            match scan_string t [] with
            | Ok s r => Ok (PStr s) r
            | Bad => Bad
            | Starved => Starved
            end
          else if is_char "{" c then
            match skip_ws t with
            | c1 :: r => if is_char "}" c1 then Ok (PDict []) r
                         else scan_members f (c1 :: r) []
            | [] => Bad
            end
          else if is_char "[" c then
            match skip_ws t with
            | c1 :: r => if is_char "]" c1 then Ok (PList []) r
                         else scan_elements f (c1 :: r) []
            | [] => Bad
            end
          else match scan_constant l with
               | Some (v, r) => Ok v r
               | None => Bad
               end
      end
  end

with scan_members (fuel : nat) (l : list ascii) (acc : list (string * pyval))
  {struct fuel} : scan pyval :=
  match fuel with
  | O => Starved
  | S f =>
      match l with
      | [] => Bad
      | c :: t =>
          if is_char dquote c then
            match scan_string t [] with
            | Ok key r =>
                match skip_ws r with
                | c1 :: r1 =>
                    if is_char ":" c1 then
                      match scan_once f (skip_ws r1) with
                      | Ok v r2 =>
                          let acc' := dict_set key v acc in
                          match skip_ws r2 with
                          | c2 :: r3 =>
                              if is_char "}" c2 then Ok (PDict acc') r3
                              else if is_char "," c2 then scan_members f (skip_ws r3) acc'
                              else Bad
                          | [] => Bad
                          end
                      | Bad => Bad
                      | Starved => Starved
                      end
                    else Bad
                | [] => Bad
                end
            | Bad => Bad
            | Starved => Starved
            end
          else Bad
      end
  end

with scan_elements (fuel : nat) (l : list ascii) (acc : list pyval)
  {struct fuel} : scan pyval :=
  match fuel with
  | O => Starved
  | S f =>
      match scan_once f l with
      | Ok v r =>
          match skip_ws r with
          | c :: r1 =>
              if is_char "]" c then Ok (PList (rev (v :: acc))) r1
              else if is_char "," c then scan_elements f (skip_ws r1) (v :: acc)
              else Bad
          | [] => Bad
          end
      | Bad => Bad
      | Starved => Starved
      end
  end.

(** [json.loads(s)]: one value, surrounded by whitespace only.  [None] is
    a [JSONDecodeError]. *)
Definition json_decode (s : string) : scan pyval :=
  let l := skip_ws (chars s) in
  match scan_once (2 * S (length l)) l with
  | Ok v r => match skip_ws r with [] => Ok v [] | _ :: _ => Bad end
  | Bad => Bad
  | Starved => Starved
  end.

Definition json_loads (s : string) : option pyval :=
  match json_decode s with
  | Ok v _ => Some v
  | _ => None
  end.

(** ** The world the program runs in

    Files are modelled by the records the [csv] module and pandas read from
    them (a list of rows of cells, the header first; the empty list is an
    empty file).  The directories are those the paths themselves name
    ([names_directory]); [os.makedirs] makes the directory part of a path
    that has one, no file standing in its way.  [pd.read_csv] is taken to
    read every file that is not
    empty; what is said of a path that may hold a table is said of the
    tables pandas reads ([pandas_reads]).  The trace records, in order,
    the calls of the acquisition client, the requests it posts and the
    sleeps. *)

Inductive event : Type :=
| Fetch (project_name : string)   (* get_info_from_perplexity was called *)
| Post (cleaned_name : string)    (* requests.post, with the name in the prompt *)
| Sleep (seconds : Z).            (* time.sleep *)

Record world : Type := World {
  files : gmap string (list (list string));
  trace : list event
}.

(** What lines 126-128 of [perplexity_api.py] give: the [content] field of
    the first choice, or an exception (transport failure, HTTP error status,
    a body without the answer field, an answer that is not text), given by
    its description [str(e)]. *)
Inductive reply : Type :=
| Failure (description : string)
| Content (content : string).

(** A computation returns a value or raises an exception, given by its
    description; the effects made before the exception stay. *)
Inductive outcome (A : Type) : Type :=
| Done (a : A)
| Raised (e : string).
Arguments Done {A} a.
Arguments Raised {A} e.

Definition M (A : Type) : Type := world -> outcome A * world.

Definition ret {A} (a : A) : M A := fun w => (Done a, w).
Definition raise {A} (e : string) : M A := fun w => (Raised e, w).
Definition bind {A B} (c : M A) (f : A -> M B) : M B :=
  fun w => match c w with
           | (Done a, w1) => f a w1
           | (Raised e, w1) => (Raised e, w1)
           end.
Definition lift {A} (o : outcome A) : M A := fun w => (o, w).

(** [try: c  except Exception as e: handler e] *)
Definition try_except {A} (c : M A) (handler : string -> M A) : M A :=
  fun w => match c w with
           | (Done a, w1) => (Done a, w1)
           | (Raised e, w1) => handler e w1
           end.

Notation "x <- c1 ;; c2" := (bind c1 (fun x => c2))
  (at level 100, c1 at next level, right associativity).
Notation "c1 ;;; c2" := (bind c1 (fun _ => c2))
  (at level 100, right associativity).

Definition emit (e : event) : M unit :=
  fun w => (Done tt, World (files w) (trace w ++ [e])).

Definition isfile (path : string) : M bool :=
  fun w => (Done (bool_decide (is_Some (files w !! path))), w).

Definition read_records (path : string) : M (option (list (list string))) :=
  fun w => (Done (files w !! path), w).

(** [open(path, "w")] and what is written through it. *)
Definition write_records (path : string) (recs : list (list string)) : M unit :=
  fun w => (Done tt, World (<[path := recs]> (files w)) (trace w)).

(** [open(path, "a")] and the rows written through it. *)
Definition append_records (path : string) (recs : list (list string)) : M unit :=
  fun w => (Done tt, World (<[path := (default [] (files w !! path) ++ recs)%list]> (files w)) (trace w)).

Definition mem (x : string) (l : list string) : bool := existsb (String.eqb x) l.

(** The names [get_info_from_perplexity] was called with, in order. *)
Fixpoint fetched (t : list event) : list string :=
  match t with
  | [] => []
  | Fetch name :: rest => name :: fetched rest
  | _ :: rest => fetched rest
  end.

(** ** Sample collaborators

    Concrete services, clocks and library behaviours, on which the program
    can be run. *)

(** A service that is down: every request times out. *)
Definition service_down : list event -> string -> reply :=
  fun _ _ => Failure "timed out".




(** A service that answers every request with a JSON array. *)
Definition service_array : list event -> string -> reply :=
  fun _ _ => Content "[1, 2]".

(** A service that answers every request inside a code fence with the
    language tag [json]. *)
Definition service_fenced : list event -> string -> reply :=
  fun _ _ => Content "```json {}```".



Definition as_is : string -> string := fun s => s.

(** A wording for the [UnicodeEncodeError] of a line. *)
Definition codec_error : list string -> string :=
  fun _ => "'utf-8' codec can't encode character: surrogates not allowed".

Definition frozen_clock : list event -> string := fun _ => "2025-01-01 00:00:00".

(** pandas writing the rows back as it read them. *)
Definition rows_as_read : list string -> list (list string) -> list (list string) :=
  fun _ rows => rows.

Definition empty_world : world := World ∅ [].

Section Program.

(** The remote answering service: its reply to a request, given what
    happened before and the cleaned name the prompt carries. *)
Variable service : list event -> string -> reply.

(** [str(e)] of the [JSONDecodeError] that [json.loads] raises on a text. *)
Variable json_error : string -> string.

(** [str(x)] of the float read from a lexeme, and [repr(s)] of a string. *)
Variable float_str : string -> string.
Variable str_repr : string -> string.

(** [datetime.now().strftime(...)], with the trace as the clock. *)
Variable strftime_now : list event -> string.

(** The data rows as [DataFrame.to_csv] writes them back after
    [pd.read_csv] has read them under a header (pandas infers column
    types, reads empty and NA-like cells as missing and pads short
    rows). *)
Variable pd_rows : list string -> list (list string) -> list (list string).

(** [str(e)] of the [UnicodeEncodeError] raised when a line with these
    cells is written through a file opened with [encoding="utf-8"]. *)
Variable encode_error : list string -> string.

(** *** str and repr of a value *)

Fixpoint py_repr (v : pyval) : string :=
  match v with
  | PNone => "None"
  | PBool true => "True"
  | PBool false => "False"
  | PInt z => NilZero.string_of_int (Z.to_int z)
  | PFloat x => float_str x
  | PStr s => str_repr s
  | PList l => "[" +:+ py_join ", " (map py_repr l) +:+ "]"
  | PDict d =>
      "{" +:+ py_join ", " (map (fun kv => let '(k, x) := kv in
                                           str_repr k +:+ ": " +:+ py_repr x) d) +:+ "}"
  end.

Definition py_str (v : pyval) : string :=
  match v with
  | PStr s => s
  | _ => py_repr v
  end.

(** *** utils/perplexity_api.py: get_info_from_perplexity *)

(** [json.loads(content)], and [json.loads(fix_json_string(content))]
    when that raises a [JSONDecodeError]. *)
Definition parse_content (content : string) : outcome pyval :=
  match json_loads content with
  | Some data => Done data
  | None =>
      let repaired := fix_json_string content in
      match json_loads repaired with
      | Some data => Done data
      | None => Raised (json_error repaired)
      end
  end.

(** [data[key] = value] *)
Definition setitem (data : pyval) (key : string) (value : pyval) : outcome pyval :=
  match data with
  | PDict d => Done (PDict (dict_set key value d))
  | PList _ => Raised "list indices must be integers or slices, not str"
  | PStr _ => Raised "'str' object does not support item assignment"
  | PInt _ => Raised "'int' object does not support item assignment"
  | PFloat _ => Raised "'float' object does not support item assignment"
  | PBool _ => Raised "'bool' object does not support item assignment"
  | PNone => Raised "'NoneType' object does not support item assignment"
  end.

(** [for key in get_required_fields(): d.setdefault(key, sentinel)] *)
Definition fill_required (d : list (string * pyval)) : list (string * pyval) :=
  fold_left (fun acc key => dict_setdefault key (PStr sentinel) acc) get_required_fields d.

Definition fill_required_val (data : pyval) : pyval :=
  match data with
  | PDict d => PDict (fill_required d)
  | other => other
  end.

Definition strip_fences (content : string) : string :=
  if py_startswith "```" content then py_strip (py_strip_chars "`" content) else content.

(** What the body of the [try] of one attempt comes to, given the trace
    so far: the record it returns or the exception it raises. *)
Definition answer (history : list event) (original_name cleaned_name : string)
  : outcome pyval :=
  match service history cleaned_name with
  | Failure e => Raised e
  | Content raw =>
      let content := strip_fences (py_strip raw) in
      match parse_content content with
      | Raised e => Raised e
      | Done data =>
          match setitem data "Project Name" (PStr original_name) with
          | Raised e => Raised e
          | Done data => Done (fill_required_val data)
          end
      end
  end.

(** The body of the [try] of one attempt. *)
Definition attempt_once (original_name cleaned_name : string) : M pyval :=
  fun w =>
    (answer (trace w) original_name cleaned_name,
     World (files w) (trace w ++ [Post cleaned_name])).

Definition fallback_record (original_name e : string) : pyval :=
  PDict (fill_required [("Project Name", PStr original_name);
                        ("error", PStr e);
                        ("Source URLs", PList [])]).

Definition max_retries : nat := 3.

(** [for attempt in range(max_retries): ...]; falling off the loop would
    return [None]. *)
Fixpoint retry_loop (attempts : list nat) (retry_delay : Z)
  (original_name cleaned_name : string) : M pyval :=
  match attempts with
  | [] => ret PNone
  | attempt :: later =>
      try_except (attempt_once original_name cleaned_name)
        (fun e =>
           if attempt <? max_retries - 1
           then emit (Sleep retry_delay) ;;;
                retry_loop later (retry_delay * 2) original_name cleaned_name
           else ret (fallback_record original_name e))
  end.

Definition get_info_from_perplexity (project_name : string) : M pyval :=
  let original_name := project_name in
  let cleaned_name := clean_project_name project_name in
  emit (Fetch project_name) ;;;
  retry_loop (seq 0 max_retries) 5 original_name cleaned_name.

(** *** utils/data_writer.py *)

(** [os.makedirs(os.path.dirname(path), exist_ok=True)]: a path without a
    directory part has the empty dirname, on which [os.makedirs] raises. *)
Definition has_dirname (path : string) : bool :=
  existsb (is_char "/") (chars path).

Definition makedirs_dirname (path : string) : M unit :=
  if has_dirname path then ret tt
  else raise "[Errno 2] No such file or directory: ''".

(** [open(path, "w")] and [open(path, "a")]: a path that names a directory
    cannot be opened. *)
Definition open_file (path : string) : M unit :=
  if names_directory path
  then raise ("[Errno 21] Is a directory: " +:+ str_repr path)
  else ret tt.

(** [writer.writerow] through a file opened with [encoding="utf-8"]: the
    line is encoded when it is written; where that fails nothing of the
    line is written and [UnicodeEncodeError] is raised. *)
Definition write_line (path : string) (cells : list string) : M unit :=
  if forallb encodable cells then append_records path [cells]
  else raise (encode_error cells).

(** The body of the loop of [_flatten]. *)
Definition flatten_value (value : pyval) : string :=
  match value with
  | PDict d => py_join ", " (map (fun kv => let '(k, v) := kv in
                                            k +:+ ": " +:+ py_str v) d)
  | PList l => py_join ", " (map py_str l)
  | other => py_str other
  end.

Definition _flatten (row : list (string * pyval)) : list (string * string) :=
  fold_left (fun flat key =>
               dict_set key (flatten_value (dict_get_or key (PStr sentinel) row)) flat)
            get_required_fields [].

(** [csv.DictWriter(fh, fieldnames).writerow(rowdict)]: the cells in the
    order of [fieldnames], [""] for a missing key; a key outside
    [fieldnames] raises [ValueError]. *)
Definition DictWriter_row (fieldnames : list string) (rowdict : list (string * string))
  : outcome (list string) :=
  match List.filter (fun k => negb (mem k fieldnames)) (dict_keys rowdict) with
  | [] => Done (map (fun k => dict_get_or k "" rowdict) fieldnames)
  | wrong => Raised ("dict contains fields not in fieldnames: "
                     +:+ py_join ", " (map str_repr wrong))
  end.

Definition ensure_csv_structure (path : string) : M unit :=
  makedirs_dirname path ;;;
  let required := get_required_fields in
  file <- read_records path ;;
  match file with
  | None =>
      (* brand-new file: just write header *)
      open_file path ;;;
      write_records path [required]
  | Some [] =>
      (* pd.read_csv on an empty file *)
      raise "No columns to parse from file"
  | Some (columns :: rows) =>
      let missing := List.filter (fun c => negb (mem c columns)) required in
      match missing with
      | [] => ret tt
      | _ :: _ =>
          write_records path
            ((columns ++ missing)%list
             :: map (fun r => (r ++ map (fun _ => sentinel) missing)%list)
                    (pd_rows columns rows))
      end
  end.

Definition write_to_csv (row : list (string * pyval)) (path : string) : M unit :=
  ensure_csv_structure path ;;;
  open_file path ;;;
  cells <- lift (DictWriter_row get_required_fields (_flatten row)) ;;
  write_line path cells.

(** What the [csv] writer puts in a cell: nothing for [None], [str]
    otherwise. *)
Definition csv_cell (v : pyval) : string :=
  match v with
  | PNone => ""
  | other => py_str other
  end.

Definition error_log_fields : list string :=
  ["Project Name"; "Error Message"; "Timestamp"].

Definition default_error_log : string := "output/error_log.csv".

(** The header, when there was no file, is written before the entry and
    stays when the entry cannot be encoded.  The time stamp is made of
    digits, hyphens, colons and a space, so that the name and the message
    alone decide whether the line can be encoded. *)
Definition write_error_log (project_name : string) (message : pyval) (path : string)
  : M unit :=
  makedirs_dirname path ;;;
  file_exists <- isfile path ;;
  open_file path ;;;
  (if file_exists : bool then ret tt else append_records path [error_log_fields]) ;;;
  fun w =>
    let entry := [project_name; csv_cell message; strftime_now (trace w)] in
    if encodable project_name && encodable (csv_cell message)
    then append_records path [entry] w
    else raise (encode_error entry) w.

(** *** app.py

    The calls into streamlit (spinner, progress bar, status text) only
    draw and are left out. *)

Record result : Type := Result {
  status : string;
  message : option pyval;
  data : pyval
}.

(** The record the two error branches of [process_single_project] build. *)
Definition minimal_fallback (project_name error_msg : string) : list (string * pyval) :=
  fold_left (fun acc key =>
               if dict_mem key acc then acc else dict_set key (PStr sentinel) acc)
            get_required_fields
            [("Project Name", PStr project_name); ("error", PStr error_msg)].

(** What the handler of the [try] of [process_single_project] does with
    the description of the exception. *)
Definition error_branch (project_name results_csv e : string) : M result :=
  let error_msg := e in
  write_error_log project_name (PStr error_msg) default_error_log ;;;
  let fallback_data := minimal_fallback project_name error_msg in
  write_to_csv fallback_data results_csv ;;;
  ret (Result "error" (Some (PStr error_msg)) (PDict fallback_data)).

Definition process_single_project (project_name results_csv : string) : M result :=
  try_except
    (response <- get_info_from_perplexity project_name ;;
     match response with
     | PDict d =>
         let has_error := dict_mem "error" d in
         write_to_csv d results_csv ;;;
         if has_error then
           let error_msg := dict_get_or "error" (PStr "Unknown error") d in
           write_error_log project_name error_msg default_error_log ;;;
           ret (Result "partial" (Some error_msg) response)
         else
           ret (Result "success" None response)
     | _ =>
         (* Not even a dict response *)
         let error_msg := py_str response in
         write_error_log project_name (PStr error_msg) default_error_log ;;;
         let fallback_data := minimal_fallback project_name error_msg in
         write_to_csv fallback_data results_csv ;;;
         ret (Result "error" (Some (PStr error_msg)) (PDict fallback_data))
     end)
    (fun e =>
       let error_msg := e in
       write_error_log project_name (PStr error_msg) default_error_log ;;;
       let fallback_data := minimal_fallback project_name error_msg in
       write_to_csv fallback_data results_csv ;;;
       ret (Result "error" (Some (PStr error_msg)) (PDict fallback_data))).

Record detail : Type := Detail {
  d_project_name : string;
  d_status : string;
  d_message : pyval
}.

Record summary : Type := Summary {
  success : nat;
  partial : nat;
  failed : nat;
  details : list detail
}.

(** One turn of the loop of [process_project_list], for a name that is
    not skipped. *)
Definition tally (project_name : string) (r : result) (results : summary) : summary :=
  let entry := Detail project_name (status r)
                      (default (PStr "Success") (message r)) in
  if String.eqb (status r) "success" then
    Summary (S (success results)) (partial results) (failed results)
            (details results ++ [entry])
  else if String.eqb (status r) "partial" then
    Summary (success results) (S (partial results)) (failed results)
            (details results ++ [entry])
  else
    Summary (success results) (partial results) (S (failed results))
            (details results ++ [entry]).

Fixpoint project_loop (project_names : list string) (results_csv : string)
  (results : summary) : M summary :=
  match project_names with
  | [] => ret results
  | project_name :: later =>
      let project_name := py_strip project_name in
      if String.eqb project_name "" then
        (* Skip empty names *)
        project_loop later results_csv results
      else
        r <- process_single_project project_name results_csv ;;
        let results := tally project_name r results in
        emit (Sleep 1) ;;;
        project_loop later results_csv results
  end.

Definition process_project_list (project_names : list string) (results_csv : string)
  : M summary :=
  let results := Summary 0 0 0 [] in
  ensure_csv_structure results_csv ;;;
  project_loop project_names results_csv results.


(** *** app.py: what [main] computes before it calls the orchestrator *)



(** [os.path.join(a, b)] of [posixpath]. *)
Definition ends_with_slash (s : string) : bool :=
  match rev (chars s) with
  | c :: _ => is_char "/" c
  | [] => false
  end.

Definition os_path_join (a b : string) : string :=
  if py_startswith "/" b then b
  else if String.eqb a "" || ends_with_slash a then a +:+ b
  else a +:+ "/" +:+ b.

Definition output_dir : string := "output".

(** [results_csv], from the file name typed in the sidebar. *)
Definition results_path (output_filename : string) : string :=
  os_path_join output_dir output_filename.

(** A table [pd.read_csv] reads without an error and without renaming a
    column: the header has a column, its names are distinct and none is
    empty, and no row is longer than the header.  (The file without a line,
    which [read_csv] refuses, is told apart by [store_ready].) *)
Definition readable (table : list (list string)) : Prop :=
  match table with
  | [] => True
  | cols :: rows =>
      cols <> [] /\ NoDup cols /\ ~ In "" cols /\
      Forall (fun r => length r <= length cols) rows
  end.

(** The model takes [read_csv] to return on every file that has a line.
    The properties of a path that may hold a table are stated for the
    tables of this kind, where this is what pandas does. *)
Definition pandas_reads (path : string) (w : world) : Prop :=
  forall table, files w !! path = Some table -> readable table.



(** What the two substitutions of [clean_project_name] do to a text,
    character by character: [blank_punct] is the first, on one character;
    [squeeze false] is the second, where [in_run] tells that the character
    before was white space. *)
Definition blank_punct (c : ascii) : ascii :=
  if is_word c || is_space c then c else " "%char.

Fixpoint squeeze (in_run : bool) (l : list ascii) : list ascii :=
  match l with
  | [] => []
  | c :: t =>
      if is_space c then (if in_run then squeeze true t else " "%char :: squeeze true t)
      else c :: squeeze false t
  end.

(** A path at which the store can be written: it has a directory part
    and holds no empty file. *)
Definition store_ready (path : string) (w : world) : Prop :=
  has_dirname path = true /\ files w !! path <> Some [].



(** The cells of the table row of a record. *)
Definition table_row (row : list (string * pyval)) : list string :=
  map (fun key => flatten_value (dict_get_or key (PStr sentinel) row))
      get_required_fields.

(** A computation that returns or raises after [get_info_from_perplexity]
    has been called with these names, in order, and with no other. *)
Definition extends {A} (c : M A) (names : list string) : Prop :=
  forall w, fetched (trace (snd (c w))) = fetched (trace w) ++ names.


(** Case analysis on the attempt the goal inspects. *)
Ltac case_answer v e A :=
  match goal with
  | |- context [match answer ?h ?o ?c with _ => _ end] =>
      destruct (answer h o c) as [v|e] eqn:A
  end.

(** ** Dictionaries *)

Lemma dict_get_set_eq {V} (k : string) (v : V) d :
  dict_get k (dict_set k v d) = Some v.
Proof.
  induction d as [|[k' v'] d IH]; simpl.
  - by rewrite String.eqb_refl.
  - destruct (String.eqb k k') eqn:E; simpl; rewrite ?String.eqb_refl, ?E; auto.
Qed.

Lemma dict_get_set_ne {V} (k k' : string) (v : V) d :
  k <> k' -> dict_get k' (dict_set k v d) = dict_get k' d.
Proof.
  intros Hne. induction d as [|[k0 v0] d IH]; simpl.
  - destruct (String.eqb k' k) eqn:E; auto.
    apply String.eqb_eq in E. congruence.
  - destruct (String.eqb k k0) eqn:E; simpl.
    + apply String.eqb_eq in E. subst k0.
      destruct (String.eqb k' k) eqn:E'; auto.
      apply String.eqb_eq in E'. congruence.
    + destruct (String.eqb k' k0); auto.
Qed.

Lemma dict_get_setdefault {V} (k k' : string) (v : V) d :
  dict_get k' (dict_setdefault k v d) =
  match dict_get k' d with
  | Some x => Some x
  | None => if String.eqb k k' then Some v else None
  end.
Proof.
  unfold dict_setdefault, dict_mem.
  destruct (dict_get k d) eqn:Hk.
  - destruct (dict_get k' d) eqn:Hk'; auto.
    destruct (String.eqb k k') eqn:E; auto.
    apply String.eqb_eq in E. congruence.
  - destruct (String.eqb k k') eqn:E.
    + apply String.eqb_eq in E. subst k'. by rewrite dict_get_set_eq, Hk.
    + apply String.eqb_neq in E. rewrite dict_get_set_ne by done.
      by destruct (dict_get k' d).
Qed.

Lemma dict_get_fill (keys : list string) (k : string) (d : list (string * pyval)) :
  dict_get k (fold_left (fun acc key => dict_setdefault key (PStr sentinel) acc) keys d) =
  match dict_get k d with
  | Some x => Some x
  | None => if mem k keys then Some (PStr sentinel) else None
  end.
Proof.
  revert d. induction keys as [|key keys IH]; intros d; simpl.
  - by destruct (dict_get k d).
  - rewrite IH, dict_get_setdefault.
    destruct (dict_get k d); auto.
    rewrite (String.eqb_sym k key). by destruct (String.eqb key k).
Qed.

Lemma dict_get_fill_required (k : string) (d : list (string * pyval)) :
  dict_get k (fill_required d) =
  match dict_get k d with
  | Some x => Some x
  | None => if mem k get_required_fields then Some (PStr sentinel) else None
  end.
Proof. apply dict_get_fill. Qed.

Lemma mem_In (x : string) (l : list string) : mem x l = true <-> In x l.
Proof.
  unfold mem. rewrite existsb_exists. split.
  - intros (y & Hy & E). apply String.eqb_eq in E. by subst.
  - intros H. exists x. split; [done | apply String.eqb_refl].
Qed.

Lemma fill_required_has (k : string) (d : list (string * pyval)) :
  In k get_required_fields -> dict_mem k (fill_required d) = true.
Proof.
  intros Hin. unfold dict_mem. rewrite dict_get_fill_required.
  destruct (dict_get k d); auto.
  apply mem_In in Hin. by rewrite Hin.
Qed.

(** ** The acquisition client *)

Lemma answer_done history original_name cleaned_name v :
  answer history original_name cleaned_name = Done v ->
  exists d, v = PDict (fill_required d) /\
            dict_get "Project Name" d = Some (PStr original_name).
Proof.
  unfold answer. destruct (service _ _) as [e|raw]; [done|].
  destruct (parse_content _) as [parsed|e]; [|done].
  destruct parsed; simpl; try done.
  intros [= <-]. eexists. split; [reflexivity | apply dict_get_set_eq].
Qed.

Lemma fallback_record_shape original_name e :
  exists d, fallback_record original_name e = PDict (fill_required d).
Proof. unfold fallback_record. eauto. Qed.

(** The three attempts of [get_info_from_perplexity], unfolded: the first
    attempt that returns ends the call; after the third failure the
    fallback record is returned. *)
Lemma get_info_unfold project_name w :
  let cleaned := clean_project_name project_name in
  let t0 := trace w ++ [Fetch project_name] in
  let t1 := t0 ++ [Post cleaned; Sleep 5] in
  let t2 := t0 ++ [Post cleaned; Sleep 5; Post cleaned; Sleep 10] in
  get_info_from_perplexity project_name w =
  match answer t0 project_name cleaned with
  | Done v => (Done v, World (files w) (t0 ++ [Post cleaned]))
  | Raised _ =>
      match answer t1 project_name cleaned with
      | Done v => (Done v, World (files w) (t1 ++ [Post cleaned]))
      | Raised _ =>
          match answer t2 project_name cleaned with
          | Done v => (Done v, World (files w) (t2 ++ [Post cleaned]))
          | Raised e =>
              (Done (fallback_record project_name e),
               World (files w) (t2 ++ [Post cleaned]))
          end
      end
  end.
Proof.
  intros cleaned t0 t1 t2.
  unfold get_info_from_perplexity, bind, emit. simpl.
  unfold try_except, attempt_once, bind, emit, ret. simpl.
  fold cleaned. fold t0.
  destruct (answer t0 _ _); [done|].
  replace ((t0 ++ [Post cleaned]) ++ [Sleep 5%Z]) with t1
    by (unfold t1; by rewrite <- app_assoc).
  destruct (answer t1 _ _); [done|].
  replace ((t1 ++ [Post cleaned]) ++ [Sleep (5 * 2)%Z]) with t2
    by (unfold t2, t1; by rewrite <- !app_assoc).
  by destruct (answer t2 _ _).
Qed.

(** C1: whatever the name and whatever the remote service does, the
    record [get_info_from_perplexity] returns is a dictionary that has
    every one of the 15 keys of the field schema. *)
Theorem get_info_has_every_required_field (project_name : string) (w : world) :
  length get_required_fields = 15 /\
  exists d w',
    get_info_from_perplexity project_name w = (Done (PDict d), w') /\
    forall key, In key get_required_fields -> dict_mem key d = true.
Proof.
  split; [reflexivity|].
  rewrite get_info_unfold.
  case_answer v e1 A1.
  { apply answer_done in A1 as (d & -> & _).
    do 2 eexists. split; [reflexivity|]. intros. by apply fill_required_has. }
  case_answer v e2 A2.
  { apply answer_done in A2 as (d & -> & _).
    do 2 eexists. split; [reflexivity|]. intros. by apply fill_required_has. }
  case_answer v e3 A3.
  { apply answer_done in A3 as (d & -> & _).
    do 2 eexists. split; [reflexivity|]. intros. by apply fill_required_has. }
  destruct (fallback_record_shape project_name e3) as (d & ->).
  do 2 eexists. split; [reflexivity|]. intros. by apply fill_required_has.
Qed.

(** C2: [get_info_from_perplexity] always returns; when each of the three
    attempts raises, it returns the fallback record, which carries the
    original name, the description of the last exception under [error],
    the empty list under [Source URLs] and the sentinel under the 13
    other fields, after sleeping 5 and then 10 between the attempts. *)
Theorem get_info_fallback_after_three_failures (project_name : string) (w : world) :
  let cleaned := clean_project_name project_name in
  let t0 := trace w ++ [Fetch project_name] in
  (exists v w', get_info_from_perplexity project_name w = (Done v, w')) /\
  forall e1 e2 e3,
    answer t0 project_name cleaned = Raised e1 ->
    answer (t0 ++ [Post cleaned; Sleep 5]) project_name cleaned = Raised e2 ->
    answer (t0 ++ [Post cleaned; Sleep 5; Post cleaned; Sleep 10])
           project_name cleaned = Raised e3 ->
    exists fb,
      get_info_from_perplexity project_name w =
        (Done (PDict fb),
         World (files w)
               (t0 ++ [Post cleaned; Sleep 5; Post cleaned; Sleep 10; Post cleaned])) /\
      dict_get "Project Name" fb = Some (PStr project_name) /\
      dict_get "error" fb = Some (PStr e3) /\
      dict_get "Source URLs" fb = Some (PList []) /\
      (forall key, In key get_required_fields ->
                   key <> "Project Name" -> key <> "Source URLs" ->
                   dict_get key fb = Some (PStr sentinel)) /\
      length (List.filter (fun key => negb (String.eqb key "Project Name"
                                       || String.eqb key "Source URLs"))
                     get_required_fields) = 13.
Proof.
  intros cleaned t0. split.
  - rewrite get_info_unfold. fold cleaned. fold t0.
    do 3 (let v := fresh "v" in let e := fresh "e" in let A := fresh "A" in
          case_answer v e A; [eauto|]).
    eauto.
  - intros e1 e2 e3 A1 A2 A3.
    rewrite get_info_unfold. fold cleaned. fold t0.
    rewrite A1, A2, A3. unfold fallback_record.
    exists (fill_required [("Project Name", PStr project_name);
                           ("error", PStr e3); ("Source URLs", PList [])]).
    split.
    { by rewrite <- app_assoc. }
    repeat split; try (rewrite dict_get_fill_required; reflexivity).
    intros key Hin Hn1 Hn2. rewrite dict_get_fill_required. cbn [dict_get].
    destruct (String.eqb key "Project Name") eqn:E1.
    { apply String.eqb_eq in E1. done. }
    destruct (String.eqb key "error") eqn:E2.
    { apply String.eqb_eq in E2. subst key. simpl in Hin.
      repeat (destruct Hin as [Hin|Hin]; [discriminate Hin|]). done. }
    destruct (String.eqb key "Source URLs") eqn:E3.
    { apply String.eqb_eq in E3. done. }
    apply mem_In in Hin. by rewrite Hin.
Qed.


(** ** The tabular store *)

Lemma missing_none (cols required : list string) :
  (forall c, In c required -> mem c cols = true) ->
  List.filter (fun c => negb (mem c cols)) required = [].
Proof.
  induction required as [|c required IH]; intros H; [done|].
  simpl. rewrite (H c) by (by left). simpl.
  apply IH. intros c' Hc'. apply H. by right.
Qed.

Lemma mem_app (x : string) (l1 l2 : list string) :
  mem x (l1 ++ l2) = mem x l1 || mem x l2.
Proof. unfold mem. apply existsb_app. Qed.

Lemma missing_after_repair (cols required : list string) :
  List.filter (fun c => negb (mem c (cols ++ List.filter (fun c => negb (mem c cols)) required)))
         required = [].
Proof.
  apply missing_none. intros c Hc. rewrite mem_app.
  destruct (mem c cols) eqn:E; [done|]. simpl.
  apply mem_In, filter_In. by rewrite E.
Qed.

Lemma required_in_itself :
  List.filter (fun c => negb (mem c get_required_fields)) get_required_fields = [].
Proof. reflexivity. Qed.

Lemma ensure_unfold (path : string) (w : world) :
  ensure_csv_structure path w =
  if has_dirname path then
    match files w !! path with
    | None =>
        if names_directory path
        then (Raised ("[Errno 21] Is a directory: " +:+ str_repr path), w)
        else (Done tt, World (<[path := [get_required_fields]]> (files w)) (trace w))
    | Some [] => (Raised "No columns to parse from file", w)
    | Some (columns :: rows) =>
        match List.filter (fun c => negb (mem c columns)) get_required_fields with
        | [] => (Done tt, w)
        | m :: missing =>
            (Done tt,
             World (<[path := (columns ++ m :: missing)
                              :: map (fun r => r ++ map (fun _ => sentinel) (m :: missing))
                                     (pd_rows columns rows)]> (files w))
                   (trace w))
        end
    end
  else (Raised "[Errno 2] No such file or directory: ''", w).
Proof.
  unfold ensure_csv_structure, bind, makedirs_dirname, read_records, open_file.
  destruct (has_dirname path); [|reflexivity].
  cbv beta iota delta [ret].
  destruct (files w !! path) as [[|columns rows]|]; try reflexivity.
  - by destruct (List.filter _ get_required_fields).
  - by destruct (names_directory path).
Qed.

(** C5: a second call of [ensure_csv_structure] in succession returns as
    the first did and changes nothing: the world it leaves, and so the
    file at the path, is the one the first call left. *)
Theorem ensure_csv_structure_idempotent (path : string) (w : world) :
  let once := ensure_csv_structure path w in
  ensure_csv_structure path (snd once) = once.
Proof.
  cbv zeta. rewrite (ensure_unfold path w).
  destruct (has_dirname path) eqn:Hdir.
  2:{ cbn [snd]. by rewrite ensure_unfold, Hdir. }
  destruct (files w !! path) as [[|cols rows]|] eqn:Hfile.
  - cbn [snd]. by rewrite ensure_unfold, Hdir, Hfile.
  - destruct (List.filter _ get_required_fields) as [|m missing] eqn:Hmiss.
    + cbn [snd]. by rewrite ensure_unfold, Hdir, Hfile, Hmiss.
    + cbn [snd]. rewrite ensure_unfold, Hdir. cbn [files trace].
      rewrite lookup_insert_eq.
      by rewrite <- Hmiss, missing_after_repair.
  - destruct (names_directory path) eqn:Hnd.
    + cbn [snd]. by rewrite ensure_unfold, Hdir, Hfile, Hnd.
    + cbn [snd]. rewrite ensure_unfold, Hdir. cbn [files trace].
      rewrite lookup_insert_eq.
      by rewrite required_in_itself.
Qed.

Lemma flatten_unfold (row : list (string * pyval)) :
  _flatten row =
  map (fun key => (key, flatten_value (dict_get_or key (PStr sentinel) row)))
      get_required_fields.
Proof. reflexivity. Qed.

Lemma dict_get_tabulate {V} (f : string -> V) (keys : list string) (k : string) :
  dict_get k (map (fun key => (key, f key)) keys) =
  if mem k keys then Some (f k) else None.
Proof.
  induction keys as [|key keys IH]; [done|]. simpl.
  destruct (String.eqb k key) eqn:E; [|done].
  apply String.eqb_eq in E. by subst.
Qed.

Lemma lookup_map {A B} (f : A -> B) (l : list A) (i : nat) :
  map f l !! i = option_map f (l !! i).
Proof.
  revert i. induction l as [|x l IH]; intros [|i]; try done. apply IH.
Qed.

Lemma DictWriter_row_flatten (row : list (string * pyval)) :
  DictWriter_row get_required_fields (_flatten row) = Done (table_row row).
Proof. reflexivity. Qed.

Lemma write_to_csv_unfold (row : list (string * pyval)) (path : string) (w : world) :
  write_to_csv row path w =
  match ensure_csv_structure path w with
  | (Done _, w1) =>
      if names_directory path
      then (Raised ("[Errno 21] Is a directory: " +:+ str_repr path), w1)
      else if forallb encodable (table_row row)
           then (Done tt,
                 World (<[path := default [] (files w1 !! path) ++ [table_row row]]> (files w1))
                       (trace w1))
           else (Raised (encode_error (table_row row)), w1)
  | (Raised e, w1) => (Raised e, w1)
  end.
Proof.
  unfold write_to_csv, bind, open_file.
  destruct (ensure_csv_structure path w) as [[[]|e] w1]; [|done].
  destruct (names_directory path); [done|].
  cbv beta iota delta [ret]. rewrite DictWriter_row_flatten.
  unfold lift, write_line.
  by destruct (forallb encodable (table_row row)).
Qed.

(** C10: the flattened row has exactly the keys of the field schema, in
    its order; the [error] key is not among them; a schema key the record
    lacks gets the sentinel; and the row [write_to_csv] appends to the
    file is made of the 15 values of these keys, in the order of the
    schema. *)
Theorem flatten_keeps_exactly_the_schema (row : list (string * pyval)) :
  dict_keys (_flatten row) = get_required_fields /\
  dict_mem "error" (_flatten row) = false /\
  (forall key, In key get_required_fields -> dict_get key row = None ->
               dict_get key (_flatten row) = Some sentinel) /\
  (forall key v, In key get_required_fields -> dict_get key row = Some v ->
                 dict_get key (_flatten row) = Some (flatten_value v)) /\
  length (table_row row) = 15 /\
  (forall i key, get_required_fields !! i = Some key ->
                 table_row row !! i = dict_get key (_flatten row)) /\
  forall path w w',
    write_to_csv row path w = (Done tt, w') ->
    exists earlier, files w' !! path = Some (earlier ++ [table_row row]).
Proof.
  split; [reflexivity|]. split; [reflexivity|].
  split.
  { intros key Hin Hnone. rewrite flatten_unfold, dict_get_tabulate.
    apply mem_In in Hin. rewrite Hin. unfold dict_get_or. by rewrite Hnone. }
  split.
  { intros key v Hin Hsome. rewrite flatten_unfold, dict_get_tabulate.
    apply mem_In in Hin. rewrite Hin. unfold dict_get_or. by rewrite Hsome. }
  split; [reflexivity|].
  split.
  { intros i key Hi. rewrite flatten_unfold, dict_get_tabulate.
    assert (Hin : In key get_required_fields).
    { apply list_elem_of_In. by eapply list_elem_of_lookup_2. }
    apply mem_In in Hin. rewrite Hin.
    unfold table_row. by rewrite lookup_map, Hi. }
  intros path w w' H. rewrite write_to_csv_unfold in H.
  destruct (ensure_csv_structure path w) as [[[]|e] w1]; [|done].
  destruct (names_directory path); [done|].
  destruct (forallb encodable (table_row row)); [|done].
  injection H as <-. cbn [files]. rewrite lookup_insert_eq. eauto.
Qed.





(** C6 (the code does otherwise): the table at the path has the 14
    columns of the schema without [Open Space] and one row.
    [write_to_csv] repairs the header by putting [Open Space] last, so the
    header is not in the order of the schema, and then appends the new row
    in the order of the schema: its eighth cell, the value of [Open Space],
    stands under [Safety & Security], and its last cell, the value of
    [Why], under [Open Space].  The call returns, with the row appended,
    exactly when the row can be encoded; the header is repaired in this
    way also when it cannot. *)
Theorem append_after_repair_misaligns (row : list (string * pyval)) (old_row : list string) :
  let path := "output/results.csv" in
  let legacy := List.filter (fun c => negb (String.eqb c "Open Space")) get_required_fields in
  let w := World {[ path := [legacy; old_row] ]} [] in
  let fits := forallb encodable (table_row row) in
  exists out w',
    write_to_csv row path w = (out, w') /\
    (out = Done tt <-> fits = true) /\
    files w' !! path =
      Some ((legacy ++ ["Open Space"])
            :: map (fun r => r ++ [sentinel]) (pd_rows legacy [old_row])
            ++ (if fits then [table_row row] else [])) /\
    (forall c, In c get_required_fields -> In c (legacy ++ ["Open Space"])) /\
    legacy ++ ["Open Space"] <> get_required_fields /\
    (legacy ++ ["Open Space"]) !! 7 = Some "Safety & Security" /\
    table_row row !! 7 = Some (flatten_value (dict_get_or "Open Space" (PStr sentinel) row)) /\
    (legacy ++ ["Open Space"]) !! 14 = Some "Open Space" /\
    table_row row !! 14 = Some (flatten_value (dict_get_or "Why" (PStr sentinel) row)).
Proof.
  intros path legacy w fits.
  assert (Hmiss : List.filter (fun c => negb (mem c legacy)) get_required_fields
                  = ["Open Space"]) by reflexivity.
  assert (Hrun : write_to_csv row path w =
                 if fits
                 then (Done tt,
                       World (<[path := ((legacy ++ ["Open Space"])
                                         :: map (fun r => r ++ [sentinel])
                                                (pd_rows legacy [old_row]))
                                        ++ [table_row row]]>
                                (<[path := (legacy ++ ["Open Space"])
                                           :: map (fun r => r ++ [sentinel])
                                                  (pd_rows legacy [old_row])]>
                                   {[ path := [legacy; old_row] ]})) [])
                 else (Raised (encode_error (table_row row)),
                       World (<[path := (legacy ++ ["Open Space"])
                                        :: map (fun r => r ++ [sentinel])
                                               (pd_rows legacy [old_row])]>
                                {[ path := [legacy; old_row] ]}) [])).
  { rewrite write_to_csv_unfold, ensure_unfold.
    replace (has_dirname path) with true by reflexivity.
    replace (names_directory path) with false by reflexivity.
    unfold w at 1 2. cbn [files trace]. rewrite lookup_singleton_eq, Hmiss.
    cbn [files trace]. rewrite lookup_insert_eq. reflexivity. }
  rewrite Hrun. clear Hrun.
  assert (Hcols : forall c, In c get_required_fields -> In c (legacy ++ ["Open Space"])).
  { intros c Hc. apply mem_In. apply mem_In in Hc. revert Hc.
    unfold legacy. generalize c. clear. intros c.
    rewrite mem_app.
    destruct (String.eqb c "Open Space") eqn:E.
    - apply String.eqb_eq in E. subst c. reflexivity.
    - intros Hc. apply orb_true_iff. left. apply mem_In, filter_In.
      split; [by apply mem_In|]. by rewrite E. }
  destruct fits; do 2 eexists; (split; [reflexivity|]); cbn [files];
    rewrite lookup_insert_eq.
  - split; [done|]. split; [reflexivity|]. split; [exact Hcols|].
    split; [discriminate|].
    repeat match goal with |- _ /\ _ => split end; reflexivity.
  - split; [split; intros H; discriminate H|].
    split; [by rewrite app_nil_r|]. split; [exact Hcols|].
    split; [discriminate|].
    repeat match goal with |- _ /\ _ => split end; reflexivity.
Qed.

(** Where the columns the table has are the first ones of the schema, in
    its order, the repair gives the header of the schema and the appended
    row stands under it. *)
Lemma append_after_repair_on_prefix row path w w' cols rows m missing :
  files w !! path = Some (cols :: rows) ->
  List.filter (fun c => negb (mem c cols)) get_required_fields = m :: missing ->
  cols ++ m :: missing = get_required_fields ->
  write_to_csv row path w = (Done tt, w') ->
  files w' !! path =
    Some (get_required_fields
          :: map (fun r => r ++ map (fun _ => sentinel) (m :: missing)) (pd_rows cols rows)
          ++ [table_row row]).
Proof.
  intros Hfile Hmiss Hprefix.
  rewrite write_to_csv_unfold, ensure_unfold.
  destruct (has_dirname path); [|done].
  rewrite Hfile, Hmiss, Hprefix.
  destruct (names_directory path); [done|].
  destruct (forallb encodable (table_row row)); [|done].
  intros [= <-]. cbn [files]. by rewrite !lookup_insert_eq.
Qed.

(** ** Calls of the acquisition client along a computation *)

Lemma fetched_app (t1 t2 : list event) :
  fetched (t1 ++ t2) = fetched t1 ++ fetched t2.
Proof.
  induction t1 as [|[name|c|d] t1 IH]; simpl; [done| |done|done].
  by rewrite IH.
Qed.

Lemma extends_ret {A} (a : A) : extends (ret a) [].
Proof. intros w. by rewrite app_nil_r. Qed.

Lemma extends_seq {A B} (c : M A) (f : A -> M B) n :
  extends c n -> (forall a, extends (f a) []) -> extends (bind c f) n.
Proof.
  intros Hc Hf w. unfold bind. specialize (Hc w).
  destruct (c w) as [[a|e] w1]; cbn [snd] in *; [|done].
  by rewrite Hf, Hc, app_nil_r.
Qed.

Lemma extends_try {A} (c : M A) (h : string -> M A) n :
  extends c n -> (forall e, extends (h e) []) -> extends (try_except c h) n.
Proof.
  intros Hc Hh w. unfold try_except. specialize (Hc w).
  destruct (c w) as [[a|e] w1]; cbn [snd] in *; [done|].
  by rewrite Hh, Hc, app_nil_r.
Qed.

Lemma extends_emit_sleep (d : Z) : extends (emit (Sleep d)) [].
Proof. intros w. cbn. by rewrite fetched_app. Qed.

Lemma extends_emit_fetch (name : string) : extends (emit (Fetch name)) [name].
Proof. intros w. cbn. by rewrite fetched_app. Qed.

Lemma extends_attempt_once original_name cleaned_name :
  extends (attempt_once original_name cleaned_name) [].
Proof. intros w. cbn. by rewrite fetched_app. Qed.

Lemma extends_retry_loop attempts retry_delay original_name cleaned_name :
  extends (retry_loop attempts retry_delay original_name cleaned_name) [].
Proof.
  revert retry_delay. induction attempts as [|attempt later IH]; intros retry_delay.
  - apply extends_ret.
  - cbn [retry_loop]. apply extends_try; [apply extends_attempt_once|].
    intros e. destruct (attempt <? max_retries - 1).
    + apply extends_seq; [apply extends_emit_sleep|]. intros _. apply IH.
    + apply extends_ret.
Qed.

Lemma extends_get_info project_name :
  extends (get_info_from_perplexity project_name) [project_name].
Proof.
  unfold get_info_from_perplexity.
  apply extends_seq; [apply extends_emit_fetch|].
  intros _. apply extends_retry_loop.
Qed.

Lemma ensure_trace path w : trace (snd (ensure_csv_structure path w)) = trace w.
Proof.
  rewrite ensure_unfold.
  destruct (has_dirname path); [|done].
  destruct (files w !! path) as [[|cols rows]|]; try done.
  - by destruct (List.filter _ get_required_fields).
  - by destruct (names_directory path).
Qed.

Lemma write_to_csv_trace row path w :
  trace (snd (write_to_csv row path w)) = trace w.
Proof.
  rewrite write_to_csv_unfold. pose proof (ensure_trace path w) as H.
  destruct (ensure_csv_structure path w) as [[[]|e] w1]; cbn [snd] in *; [|done].
  destruct (names_directory path); [done|].
  by destruct (forallb encodable (table_row row)).
Qed.

Lemma extends_write_to_csv row path : extends (write_to_csv row path) [].
Proof. intros w. by rewrite write_to_csv_trace, app_nil_r. Qed.


Lemma write_error_log_unfold project_name msg path w :
  write_error_log project_name msg path w =
  if has_dirname path then
    if names_directory path
    then (Raised ("[Errno 21] Is a directory: " +:+ str_repr path), w)
    else
      if encodable project_name && encodable (csv_cell msg)
      then (Done tt,
            World (<[path := default [error_log_fields] (files w !! path)
                             ++ [[project_name; csv_cell msg; strftime_now (trace w)]]]>
                     (files w))
                  (trace w))
      else (Raised (encode_error [project_name; csv_cell msg; strftime_now (trace w)]),
            match files w !! path with
            | Some _ => w
            | None => World (<[path := [error_log_fields]]> (files w)) (trace w)
            end)
  else (Raised "[Errno 2] No such file or directory: ''", w).
Proof.
  unfold write_error_log, bind, makedirs_dirname, isfile, open_file.
  destruct (has_dirname path); [|reflexivity].
  cbv beta iota delta [ret].
  destruct (names_directory path); [reflexivity|].
  destruct (files w !! path) as [t|] eqn:E.
  - rewrite bool_decide_eq_true_2 by eauto.
    destruct (encodable project_name && encodable (csv_cell msg)); [|reflexivity].
    unfold append_records. by rewrite E.
  - rewrite bool_decide_eq_false_2 by (by intros [? ?]).
    unfold append_records. cbn [files trace]. rewrite E. cbn [default app].
    destruct (encodable project_name && encodable (csv_cell msg)); [|reflexivity].
    by rewrite lookup_insert_eq, insert_insert_eq.
Qed.

Lemma write_error_log_trace project_name msg path w :
  trace (snd (write_error_log project_name msg path w)) = trace w.
Proof.
  rewrite write_error_log_unfold.
  destruct (has_dirname path); [|done].
  destruct (names_directory path); [done|].
  destruct (encodable project_name && encodable (csv_cell msg)); [done|].
  by destruct (files w !! path).
Qed.

Lemma write_error_log_frame project_name msg path w p :
  p <> path -> files (snd (write_error_log project_name msg path w)) !! p = files w !! p.
Proof.
  intros Hp. rewrite write_error_log_unfold.
  destruct (has_dirname path); [|done].
  destruct (names_directory path); [done|].
  destruct (encodable project_name && encodable (csv_cell msg)); cbn [snd files].
  - by rewrite lookup_insert_ne.
  - destruct (files w !! path); [done|]. cbn [files]. by rewrite lookup_insert_ne.
Qed.

Lemma extends_write_error_log project_name msg path :
  extends (write_error_log project_name msg path) [].
Proof. intros w. by rewrite write_error_log_trace, app_nil_r. Qed.

Lemma extends_error_branch project_name results_csv (error_msg : string) :
  extends (error_branch project_name results_csv error_msg) [].
Proof.
  unfold error_branch.
  apply extends_seq; [apply extends_write_error_log|]. intros _.
  apply extends_seq; [apply extends_write_to_csv|]. intros _.
  apply extends_ret.
Qed.

Lemma extends_process_single_project project_name results_csv :
  extends (process_single_project project_name results_csv) [project_name].
Proof.
  unfold process_single_project.
  apply extends_try; [|intros e; apply extends_error_branch].
  apply extends_seq; [apply extends_get_info|].
  intros response.
  destruct response; try apply extends_error_branch.
  apply extends_seq; [apply extends_write_to_csv|]. intros _.
  destruct (dict_mem "error" d); [|apply extends_ret].
  apply extends_seq; [apply extends_write_error_log|]. intros _.
  apply extends_ret.
Qed.


(** ** The orchestrator *)

Lemma get_info_returns project_name w :
  exists d t,
    get_info_from_perplexity project_name w =
    (Done (PDict (fill_required d)), World (files w) t).
Proof.
  rewrite get_info_unfold.
  do 3 (let v := fresh "v" in let e := fresh "e" in let A := fresh "A" in
        case_answer v e A; [apply answer_done in A as (d & -> & _); eauto|]).
  unfold fallback_record. eauto.
Qed.

Lemma PDict_inj (a b : list (string * pyval)) : PDict a = PDict b -> a = b.
Proof. by intros [= ]. Qed.

Lemma get_info_returns_named project_name w :
  exists d t,
    get_info_from_perplexity project_name w = (Done (PDict d), World (files w) t) /\
    dict_get "Project Name" d = Some (PStr project_name).
Proof.
  rewrite get_info_unfold.
  do 3 (let v := fresh "v" in let e := fresh "e" in let A := fresh "A" in
        case_answer v e A;
        [apply answer_done in A as (d & -> & Hname);
         do 2 eexists; split; [reflexivity|];
         by rewrite dict_get_fill_required, Hname|]).
  unfold fallback_record. do 2 eexists. split; [reflexivity|].
  by rewrite dict_get_fill_required.
Qed.

Lemma fallback_has_error original_name e d :
  PDict d = fallback_record original_name e -> dict_mem "error" d = true.
Proof.
  intros He. unfold fallback_record in He. apply PDict_inj in He. subst d.
  unfold dict_mem. by rewrite dict_get_fill_required.
Qed.



(** The handler of the [try], step by step. *)
Lemma error_branch_unfold project_name results_csv e w :
  error_branch project_name results_csv e w =
  match write_error_log project_name (PStr e) default_error_log w with
  | (Done _, w1) =>
      match write_to_csv (minimal_fallback project_name e) results_csv w1 with
      | (Done _, w2) =>
          (Done (Result "error" (Some (PStr e)) (PDict (minimal_fallback project_name e))), w2)
      | (Raised e', w2) => (Raised e', w2)
      end
  | (Raised e', w1) => (Raised e', w1)
  end.
Proof.
  unfold error_branch, bind.
  destruct (write_error_log _ _ _ w) as [[[]|e1] w1]; [|reflexivity].
  by destruct (write_to_csv _ _ w1) as [[[]|e2] w2].
Qed.

(** [process_single_project], step by step: the client returns a
    dictionary, so that the branch for another kind of response is never
    taken; the handler runs when the row or the log entry cannot be
    written. *)
Lemma process_single_project_unfold project_name results_csv w d w1 :
  get_info_from_perplexity project_name w = (Done (PDict d), w1) ->
  process_single_project project_name results_csv w =
  match write_to_csv d results_csv w1 with
  | (Done _, w2) =>
      if dict_mem "error" d then
        let error_msg := dict_get_or "error" (PStr "Unknown error") d in
        match write_error_log project_name error_msg default_error_log w2 with
        | (Done _, w3) => (Done (Result "partial" (Some error_msg) (PDict d)), w3)
        | (Raised e, w3) => error_branch project_name results_csv e w3
        end
      else (Done (Result "success" None (PDict d)), w2)
  | (Raised e, w2) => error_branch project_name results_csv e w2
  end.
Proof.
  intros Hget. unfold process_single_project, try_except, bind. rewrite Hget.
  destruct (write_to_csv d results_csv w1) as [[[]|e] w2]; [|reflexivity].
  destruct (dict_mem "error" d); [|reflexivity].
  by destruct (write_error_log _ _ _ w2) as [[[]|e] w3].
Qed.





(** ** Classification *)

(** The three results [process_single_project] can return, with what led
    to each. *)
Lemma process_single_project_cases project_name results_csv w r w' :
  process_single_project project_name results_csv w = (Done r, w') ->
  exists d w1,
    get_info_from_perplexity project_name w = (Done (PDict d), w1) /\
    dict_get "Project Name" d = Some (PStr project_name) /\
    ((dict_mem "error" d = false /\
      write_to_csv d results_csv w1 = (Done tt, w') /\
      r = Result "success" None (PDict d)) \/
     (exists v w2,
        dict_get "error" d = Some v /\
        write_to_csv d results_csv w1 = (Done tt, w2) /\
        write_error_log project_name v default_error_log w2 = (Done tt, w') /\
        r = Result "partial" (Some v) (PDict d)) \/
     (exists e w2,
        (write_to_csv d results_csv w1 = (Raised e, w2) \/
         exists v w0,
           dict_get "error" d = Some v /\
           write_to_csv d results_csv w1 = (Done tt, w0) /\
           write_error_log project_name v default_error_log w0 = (Raised e, w2)) /\
        error_branch project_name results_csv e w2 = (Done r, w') /\
        r = Result "error" (Some (PStr e)) (PDict (minimal_fallback project_name e)))).
Proof.
  destruct (get_info_returns_named project_name w) as (d & t & Hget & Hname).
  rewrite (process_single_project_unfold _ _ _ _ _ Hget).
  intros H. exists d, (World (files w) t). split; [exact Hget|]. split; [exact Hname|].
  assert (Herr : forall e w2, error_branch project_name results_csv e w2 = (Done r, w') ->
            r = Result "error" (Some (PStr e)) (PDict (minimal_fallback project_name e))).
  { intros e w2 He. rewrite error_branch_unfold in He.
    destruct (write_error_log _ _ _ w2) as [[[]|e1] w3]; [|done].
    destruct (write_to_csv _ _ w3) as [[[]|e2] w4]; [|done].
    by injection He as <- _. }
  destruct (write_to_csv d results_csv _) as [[[]|e] w2] eqn:Hwrite.
  - unfold dict_mem, dict_get_or in *.
    destruct (dict_get "error" d) as [v|] eqn:Hv.
    + destruct (write_error_log _ _ _ w2) as [[[]|e] w3] eqn:Hlog.
      * injection H as <- <-. right; left. exists v, w2. eauto.
      * right; right. exists e, w3. split; [right; exists v, w2; eauto|]. eauto.
    + injection H as <- <-. left. eauto.
  - right; right. exists e, w2. eauto.
Qed.

(** C4 (amended): [process_single_project], when it returns (the results
    path holding no file or a table pandas reads), classifies the record of
    the client by its [error] key alone: a result [success] is a record
    without the key, a result [partial] a record with it, and both carry
    the record itself.  The result [error] is given only after writing the
    row or the log entry raised; it carries the record the handler builds
    and the description of the exception.  A fallback record has the key:
    it is never [success], and it is [partial] unless a write raised. *)
Theorem classification_follows_error_key (project_name results_csv : string) (w : world)
  (r : result) (w' : world) :
  pandas_reads results_csv w ->
  process_single_project project_name results_csv w = (Done r, w') ->
  exists d w1,
    get_info_from_perplexity project_name w = (Done (PDict d), w1) /\
    (status r = "success" \/ status r = "partial" \/ status r = "error") /\
    (status r <> "error" ->
     (status r = "partial" <-> dict_mem "error" d = true) /\
     (status r = "success" <-> dict_mem "error" d = false)) /\
    (status r = "success" -> dict_mem "error" d = false /\ data r = PDict d) /\
    (status r = "partial" ->
     dict_mem "error" d = true /\ data r = PDict d /\ message r = dict_get "error" d) /\
    (status r = "error" ->
     exists e w2,
       (write_to_csv d results_csv w1 = (Raised e, w2) \/
        exists v w0,
          dict_get "error" d = Some v /\
          write_to_csv d results_csv w1 = (Done tt, w0) /\
          write_error_log project_name v default_error_log w0 = (Raised e, w2)) /\
       message r = Some (PStr e) /\
       data r = PDict (minimal_fallback project_name e)) /\
    (forall e, PDict d = fallback_record project_name e ->
               dict_mem "error" d = true /\ status r <> "success").
Proof.
  intros _ H.
  destruct (process_single_project_cases _ _ _ _ _ H)
    as (d & w1 & Hget & _ & [(Hno & Hwrite & ->)|[(v & w2 & Hv & Hwrite & Hlog & ->)
                                                 |(e & w2 & Hraise & _ & ->)]]).
  - exists d, w1. split; [exact Hget|]. cbn [status data message].
    split; [by left|].
    split; [intros _; rewrite Hno; split; split; intros; done|].
    split; [done|]. split; [discriminate|]. split; [discriminate|].
    intros e He. apply fallback_has_error in He. congruence.
  - exists d, w1. split; [exact Hget|]. cbn [status data message].
    assert (Hmem : dict_mem "error" d = true) by (unfold dict_mem; by rewrite Hv).
    split; [right; by left|].
    split; [intros _; rewrite Hmem; split; split; intros; done|].
    split; [discriminate|]. split; [done|].
    split; [discriminate|]. intros e He. split; [done|discriminate].
  - exists d, w1. split; [exact Hget|]. cbn [status data message].
    split; [right; by right|]. split; [done|].
    split; [discriminate|]. split; [discriminate|].
    split; [intros _; exists e, w2; eauto|].
    intros e' He. apply fallback_has_error in He. split; [done|discriminate].
Qed.



(** ** More on the acquisition client *)

(** X1: whatever the service does, the record [get_info_from_perplexity]
    returns carries, under [Project Name], the name it was called with. *)
Theorem get_info_keeps_original_name (project_name : string) (w : world) :
  exists d w',
    get_info_from_perplexity project_name w = (Done (PDict d), w') /\
    dict_get "Project Name" d = Some (PStr project_name).
Proof.
  rewrite get_info_unfold.
  do 3 (let v := fresh "v" in let e := fresh "e" in let A := fresh "A" in
        case_answer v e A;
        [apply answer_done in A as (d & -> & Hname);
         do 2 eexists; split; [reflexivity|];
         by rewrite dict_get_fill_required, Hname|]).
  unfold fallback_record. do 2 eexists. split; [reflexivity|].
  by rewrite dict_get_fill_required.
Qed.

(** X2: a call of [get_info_from_perplexity] writes no file, posts one, two
    or three requests, each with the cleaned name, and sleeps 5 before the
    second and 10 before the third; it never sleeps after its last
    request. *)
Theorem get_info_bounded_retry (project_name : string) (w : world) :
  let c := clean_project_name project_name in
  exists v w',
    get_info_from_perplexity project_name w = (Done v, w') /\
    files w' = files w /\
    (trace w' = trace w ++ [Fetch project_name; Post c] \/
     trace w' = trace w ++ [Fetch project_name; Post c; Sleep 5; Post c] \/
     trace w' = trace w ++ [Fetch project_name; Post c; Sleep 5; Post c; Sleep 10; Post c]).
Proof.
  intros c. rewrite get_info_unfold. fold c.
  case_answer v1 e1 A1.
  { do 2 eexists. split; [reflexivity|]. split; [reflexivity|].
    left. cbn [trace]. by rewrite <- app_assoc. }
  case_answer v2 e2 A2.
  { do 2 eexists. split; [reflexivity|]. split; [reflexivity|].
    right; left. cbn [trace]. by rewrite <- !app_assoc. }
  case_answer v3 e3 A3;
    (do 2 eexists; split; [reflexivity|]; split; [reflexivity|];
     right; right; cbn [trace]; by rewrite <- !app_assoc).
Qed.


(** X4: when every reply of the service is valid JSON for an array, each
    attempt raises at the assignment of the project name, and the call
    returns the fallback record with the description of that [TypeError]. *)
Theorem array_reply_ends_as_fallback (project_name : string) (w : world) :
  (forall history, exists raw l,
      service history (clean_project_name project_name) = Content raw /\
      json_loads (strip_fences (py_strip raw)) = Some (PList l)) ->
  exists w',
    get_info_from_perplexity project_name w =
    (Done (fallback_record project_name
             "list indices must be integers or slices, not str"), w').
Proof.
  intros Hreply.
  assert (Hans : forall history,
             answer history project_name (clean_project_name project_name)
             = Raised "list indices must be integers or slices, not str").
  { intros history. destruct (Hreply history) as (raw & l & Hs & Hj).
    unfold answer, parse_content. by rewrite Hs, Hj. }
  rewrite get_info_unfold. cbv zeta. rewrite !Hans. eauto.
Qed.


(** ** More on the tabular store *)

(** X5: how [ensure_csv_structure] fails.  It raises on a path without a
    directory part (from [os.makedirs]), on an empty file (from
    [pd.read_csv]), and on a path that names a directory where there is no
    file; whenever it raises it has changed nothing; and it returns in none
    of these three cases. *)
Theorem ensure_csv_structure_outcome (path : string) (w : world) :
  (forall e w', ensure_csv_structure path w = (Raised e, w') -> w' = w) /\
  (has_dirname path = false ->
   ensure_csv_structure path w = (Raised "[Errno 2] No such file or directory: ''", w)) /\
  (has_dirname path = true -> files w !! path = Some [] ->
   ensure_csv_structure path w = (Raised "No columns to parse from file", w)) /\
  (has_dirname path = true -> files w !! path = None -> names_directory path = true ->
   exists e, ensure_csv_structure path w = (Raised e, w)) /\
  (forall w', ensure_csv_structure path w = (Done tt, w') ->
              store_ready path w /\
              (files w !! path = None -> names_directory path = false)).
Proof.
  rewrite ensure_unfold. unfold store_ready.
  split; [|split; [|split; [|split]]].
  - intros e w'. destruct (has_dirname path); [|by intros [= _ <-]].
    destruct (files w !! path) as [[|cols rows]|].
    + by intros [= _ <-].
    + by destruct (List.filter _ get_required_fields).
    + destruct (names_directory path); [by intros [= _ <-]|done].
  - by intros ->.
  - by intros -> ->.
  - intros -> -> ->. eauto.
  - intros w'. destruct (has_dirname path); [|done].
    destruct (files w !! path) as [[|cols rows]|]; [done| |].
    + intros _. split; [done|]. intros [=].
    + destruct (names_directory path); [done|]. intros _. done.
Qed.

Lemma missing_sound (cols : list string) (c : string) :
  In c (List.filter (fun c => negb (mem c cols)) get_required_fields) ->
  In c get_required_fields /\ ~ In c cols.
Proof.
  intros H. apply filter_In in H as [Hin Hmem]. split; [done|].
  intros Hc. apply mem_In in Hc. by rewrite Hc in Hmem.
Qed.

Lemma missing_complete (cols : list string) (c : string) :
  In c get_required_fields ->
  In c (cols ++ List.filter (fun c => negb (mem c cols)) get_required_fields).
Proof.
  intros Hin. apply in_or_app.
  destruct (mem c cols) eqn:E.
  - left. by apply mem_In.
  - right. apply filter_In. by rewrite E.
Qed.

(** X6: when [ensure_csv_structure] returns, the header at the path has
    every column of the schema.  On a table that was there, one pandas
    reads, the columns are only added to: the old header stays as it was,
    in front; the added columns are schema columns the old header lacked;
    with none to add the file is not written at all; otherwise every row
    pandas writes back ends with one sentinel for each added column. *)
Theorem ensure_csv_structure_only_adds (path : string) (w w' : world) :
  pandas_reads path w ->
  ensure_csv_structure path w = (Done tt, w') ->
  exists cols rows,
    files w' !! path = Some (cols :: rows) /\
    (forall c, In c get_required_fields -> In c cols) /\
    forall old_cols old_rows,
      files w !! path = Some (old_cols :: old_rows) ->
      exists added,
        cols = old_cols ++ added /\
        (forall c, In c added -> In c get_required_fields /\ ~ In c old_cols) /\
        ((added = [] /\ w' = w) \/
         (added <> [] /\
          rows = map (fun r => r ++ map (fun _ => sentinel) added)
                     (pd_rows old_cols old_rows))).
Proof.
  intros _. rewrite ensure_unfold.
  destruct (has_dirname path); [|discriminate].
  destruct (files w !! path) as [[|old_cols old_rows]|] eqn:Hfile; [discriminate| |].
  - destruct (List.filter _ get_required_fields) as [|m missing] eqn:Hmiss.
    + intros [= <-]. exists old_cols, old_rows. split; [done|]. split.
      { intros c Hc. pose proof (missing_complete old_cols c Hc) as H.
        by rewrite Hmiss, app_nil_r in H. }
      intros ? ? [= <- <-]. exists []. rewrite app_nil_r.
      repeat split; try done. by left.
    + intros [= <-]. cbn [files]. rewrite lookup_insert_eq.
      do 2 eexists. split; [reflexivity|]. split.
      { intros c Hc. rewrite <- Hmiss. by apply missing_complete. }
      intros ? ? [= <- <-]. exists (m :: missing). split; [done|]. split.
      { intros c Hc. rewrite <- Hmiss in Hc. by apply missing_sound. }
      right. by split.
  - destruct (names_directory path); [discriminate|].
    intros [= <-]. cbn [files]. rewrite lookup_insert_eq.
    do 2 eexists. split; [reflexivity|]. split; [done|]. intros ? ? [=].
Qed.

Lemma ensure_frame path w p :
  p <> path -> files (snd (ensure_csv_structure path w)) !! p = files w !! p.
Proof.
  intros Hp. rewrite ensure_unfold.
  destruct (has_dirname path); [|done].
  destruct (files w !! path) as [[|cols rows]|]; [done| |].
  - destruct (List.filter _ get_required_fields); cbn [snd files];
      by rewrite ?lookup_insert_ne.
  - destruct (names_directory path); cbn [snd files]; by rewrite ?lookup_insert_ne.
Qed.

(** X7: [write_to_csv] writes its row last or writes no row.  When it
    returns, the table at the path is the one [ensure_csv_structure]
    leaves, with the row of the record added at its end, and the row can
    be encoded.  When it raises, the world is the one
    [ensure_csv_structure] left: the header may have been made or
    repaired, no row has been added.  No other file and no part of the
    trace changes. *)
Theorem write_to_csv_all_or_nothing (row : list (string * pyval)) (path : string)
  (w : world) (out : outcome unit) (w' : world) :
  pandas_reads path w ->
  write_to_csv row path w = (out, w') ->
  trace w' = trace w /\
  (forall p, p <> path -> files w' !! p = files w !! p) /\
  (out = Done tt ->
   forallb encodable (table_row row) = true /\
   exists w1 table,
     ensure_csv_structure path w = (Done tt, w1) /\
     files w1 !! path = Some table /\
     files w' !! path = Some (table ++ [table_row row])) /\
  (forall e, out = Raised e -> w' = snd (ensure_csv_structure path w)).
Proof.
  intros _ H.
  pose proof (write_to_csv_trace row path w) as Htrace.
  rewrite H in Htrace. cbn [snd] in Htrace. split; [exact Htrace|].
  pose proof (ensure_frame path w) as Hframe.
  rewrite write_to_csv_unfold in H.
  destruct (ensure_csv_structure path w) as [[[]|e1] w1] eqn:Hens; cbn [snd] in *.
  2:{ injection H as <- <-. split; [done|]. split; [intros [=]|done]. }
  destruct (names_directory path).
  { injection H as <- <-. split; [done|]. split; [intros [=]|done]. }
  destruct (forallb encodable (table_row row)).
  2:{ injection H as <- <-. split; [done|]. split; [intros [=]|done]. }
  injection H as <- <-. cbn [files].
  split; [intros p Hp; rewrite lookup_insert_ne by done; by apply Hframe|].
  split; [|intros e [=]]. intros _. split; [done|].
  assert (Hsome : is_Some (files w1 !! path)).
  { rewrite ensure_unfold in Hens.
    destruct (has_dirname path); [|done].
    destruct (files w !! path) as [[|cols rows]|] eqn:Hfile; [done| |].
    - destruct (List.filter _ get_required_fields); injection Hens as <-; cbn [files];
        rewrite ?lookup_insert_eq, ?Hfile; eauto.
    - destruct (names_directory path); [done|]. injection Hens as <-. cbn [files].
      rewrite lookup_insert_eq. eauto. }
  destruct Hsome as [table Htable].
  exists w1, table. split; [done|]. split; [done|].
  by rewrite lookup_insert_eq, Htable.
Qed.

(** X8: flattening is idempotent: a flattened row, taken as a record of
    strings and flattened again, is unchanged. *)
Theorem flatten_idempotent (row : list (string * pyval)) :
  _flatten (map (fun kv => (fst kv, PStr (snd kv))) (_flatten row)) = _flatten row.
Proof. reflexivity. Qed.

(** X9: the table row of a fallback record has the project name in its
    first cell, nothing in the cell of [Source URLs] (the join of an empty
    list), and the sentinel in the 13 other cells; the description of the
    error is in no column. *)
Theorem fallback_record_row (original_name e : string) :
  match fallback_record original_name e with
  | PDict d =>
      table_row d = original_name :: repeat sentinel 12 ++ [""; sentinel]
  | _ => False
  end.
Proof. reflexivity. Qed.

(** X10: [write_error_log] only appends.  When it returns, the path has a
    directory part and names no directory, the name and the message can be
    encoded, and the log is the one that was there, or the header of three
    columns when there was none, followed by the entry (name, message,
    time).  When it raises, a log that was there is as it was, and where
    there was none there is none still or the header alone.  No other file
    and no part of the trace changes. *)
Theorem write_error_log_appends (project_name : string) (msg : pyval) (path : string)
  (w : world) (out : outcome unit) (w' : world) :
  write_error_log project_name msg path w = (out, w') ->
  let entry := [project_name; csv_cell msg; strftime_now (trace w)] in
  trace w' = trace w /\
  (forall p, p <> path -> files w' !! p = files w !! p) /\
  (out = Done tt ->
   has_dirname path = true /\ names_directory path = false /\
   encodable project_name = true /\ encodable (csv_cell msg) = true /\
   files w' !! path = Some (default [error_log_fields] (files w !! path) ++ [entry])) /\
  (forall e, out = Raised e ->
             files w' !! path = files w !! path \/
             (files w !! path = None /\ files w' !! path = Some [error_log_fields])).
Proof.
  intros H entry.
  pose proof (write_error_log_trace project_name msg path w) as Htrace.
  pose proof (write_error_log_frame project_name msg path w) as Hframe.
  rewrite H in Htrace, Hframe. cbn [snd] in Htrace, Hframe.
  split; [exact Htrace|]. split; [exact Hframe|].
  rewrite write_error_log_unfold in H.
  destruct (has_dirname path).
  2:{ injection H as <- <-. split; [intros [=]|]. intros e _. by left. }
  destruct (names_directory path).
  { injection H as <- <-. split; [intros [=]|]. intros e _. by left. }
  destruct (encodable project_name) eqn:E1, (encodable (csv_cell msg)) eqn:E2;
    cbn [andb] in H; injection H as <- <-.
  - split; [|intros e [=]]. intros _. cbn [files]. by rewrite lookup_insert_eq.
  - split; [intros [=]|]. intros e _.
    destruct (files w !! path) eqn:F; [left; by rewrite F|right].
    cbn [files]. by rewrite lookup_insert_eq.
  - split; [intros [=]|]. intros e _.
    destruct (files w !! path) eqn:F; [left; by rewrite F|right].
    cbn [files]. by rewrite lookup_insert_eq.
  - split; [intros [=]|]. intros e _.
    destruct (files w !! path) eqn:F; [left; by rewrite F|right].
    cbn [files]. by rewrite lookup_insert_eq.
Qed.


(** ** More on the orchestrator *)




Lemma error_log_is_not_bare path : has_dirname path = false -> path <> default_error_log.
Proof. intros H ->. discriminate H. Qed.






(** X13: with a results path that has no directory part,
    [process_single_project] raises: the handler of its [try] logs the
    failure of [write_to_csv] and then calls [write_to_csv] again, which
    fails the same way.  With a name that can be encoded the error log has
    got the entry; with one that cannot, writing the entry raises in its
    turn and the log has got its header at most.  The results path has got
    nothing. *)
Theorem process_single_project_raises_without_directory
  (project_name results_csv : string) (w : world) :
  has_dirname results_csv = false ->
  let e := "[Errno 2] No such file or directory: ''" in
  (encodable project_name = true ->
   exists w' stamp,
     process_single_project project_name results_csv w = (Raised e, w') /\
     files w' !! results_csv = files w !! results_csv /\
     files w' !! default_error_log =
       Some (default [error_log_fields] (files w !! default_error_log)
             ++ [[project_name; e; stamp]])) /\
  (encodable project_name = false ->
   exists w' stamp,
     process_single_project project_name results_csv w
     = (Raised (encode_error [project_name; e; stamp]), w') /\
     files w' !! results_csv = files w !! results_csv /\
     files w' !! default_error_log =
       Some (default [error_log_fields] (files w !! default_error_log))).
Proof.
  intros Hdir e.
  destruct (get_info_returns project_name w) as (d0 & t & Hget).
  assert (Hne : results_csv <> default_error_log) by (by apply error_log_is_not_bare).
  assert (Hraise : forall row w0, write_to_csv row results_csv w0 = (Raised e, w0)).
  { intros row w0. by rewrite write_to_csv_unfold, ensure_unfold, Hdir. }
  rewrite (process_single_project_unfold _ _ _ _ _ Hget), Hraise, error_branch_unfold.
  rewrite write_error_log_unfold.
  replace (has_dirname default_error_log) with true by reflexivity.
  replace (names_directory default_error_log) with false by reflexivity.
  replace (encodable (csv_cell (PStr e))) with true by reflexivity.
  cbn [files trace csv_cell py_str].
  split; intros ->; cbn [andb].
  - rewrite Hraise. do 2 eexists. split; [reflexivity|]. cbn [files].
    by rewrite lookup_insert_eq, lookup_insert_ne by (by apply not_eq_sym).
  - do 2 eexists. split; [reflexivity|].
    destruct (files w !! default_error_log) eqn:F; cbn [files].
    + by rewrite F.
    + by rewrite lookup_insert_eq, lookup_insert_ne by (by apply not_eq_sym).
Qed.





(** X16: [process_project_list] fails before it asks for anything: on a
    results path without a directory part, or one that holds an empty
    file, it raises from its first step; no request has been made, no name
    processed and nothing written. *)
Theorem process_project_list_fails_fast (project_names : list string)
  (results_csv : string) (w : world) :
  ~ store_ready results_csv w ->
  exists e, process_project_list project_names results_csv w = (Raised e, w).
Proof.
  intros Hnot. unfold process_project_list, bind, store_ready in *.
  rewrite ensure_unfold.
  destruct (has_dirname results_csv); [|eauto].
  destruct (files w !! results_csv) as [[|cols rows]|]; [eauto| |];
    exfalso; apply Hnot; by split.
Qed.


(** ** More on records and rows *)

Lemma setdefault_present {V} (k : string) (v : V) d :
  dict_mem k d = true -> dict_setdefault k v d = d.
Proof. unfold dict_setdefault. by intros ->. Qed.

Lemma fill_fixed (keys : list string) (d : list (string * pyval)) :
  (forall k, In k keys -> dict_mem k d = true) ->
  fold_left (fun acc key => dict_setdefault key (PStr sentinel) acc) keys d = d.
Proof.
  induction keys as [|key keys IH]; intros H; [done|]. cbn [fold_left].
  rewrite setdefault_present by (apply H; by left).
  apply IH. intros k Hk. apply H. by right.
Qed.

(** X22: the loop that completes a record never replaces a value that is
    there, whatever it is; it only adds the sentinel under the schema keys
    that are absent, and doing it again changes nothing.  So a field the
    service answers with [null] stays [None], and the cell written for it
    is the text [None], not the sentinel. *)
Theorem fill_required_keeps_values (d : list (string * pyval)) :
  (forall key v, dict_get key d = Some v -> dict_get key (fill_required d) = Some v) /\
  (forall key, dict_get key d = None -> In key get_required_fields ->
               dict_get key (fill_required d) = Some (PStr sentinel)) /\
  (forall key, dict_get key d = None -> ~ In key get_required_fields ->
               dict_get key (fill_required d) = None) /\
  fill_required (fill_required d) = fill_required d /\
  (forall key, In key get_required_fields -> dict_get key d = Some PNone ->
               dict_get key (_flatten (fill_required d)) = Some "None").
Proof.
  split; [|split; [|split; [|split]]].
  - intros key v H. by rewrite dict_get_fill_required, H.
  - intros key H Hin. rewrite dict_get_fill_required, H.
    apply mem_In in Hin. by rewrite Hin.
  - intros key H Hin. rewrite dict_get_fill_required, H.
    destruct (mem key get_required_fields) eqn:E; [|done].
    by apply mem_In in E.
  - unfold fill_required at 1. apply fill_fixed. intros k Hk. by apply fill_required_has.
  - intros key Hin H. rewrite flatten_unfold, dict_get_tabulate.
    apply mem_In in Hin. rewrite Hin. unfold dict_get_or.
    by rewrite dict_get_fill_required, H.
Qed.

(** X23: the cell of [Source URLs], the fourteenth of a row, holds the
    addresses of the record joined by a comma and a space when the record
    has a list of strings there. *)
Theorem source_urls_cell_is_the_join (row : list (string * pyval)) (urls : list string) :
  dict_get "Source URLs" row = Some (PList (map PStr urls)) ->
  get_required_fields !! 13 = Some "Source URLs" /\
  table_row row !! 13 = Some (py_join ", " urls).
Proof.
  intros H. split; [reflexivity|].
  unfold table_row. rewrite lookup_map.
  replace (get_required_fields !! 13) with (Some "Source URLs") by reflexivity.
  cbn [option_map]. unfold dict_get_or. rewrite H. cbn [flatten_value].
  assert (Hm : map py_str (map PStr urls) = urls).
  { clear H. induction urls as [|u urls IH]; [done|]. cbn [map py_str]. by rewrite IH. }
  by rewrite Hm.
Qed.

(** X24: [process_single_project] calls the acquisition client exactly
    once, whether it returns or raises: the handler of its [try] does not
    ask again. *)
Theorem process_single_project_fetches_once (project_name results_csv : string)
  (w : world) :
  fetched (trace (snd (process_single_project project_name results_csv w)))
  = fetched (trace w) ++ [project_name].
Proof. apply extends_process_single_project. Qed.

(** X25: a table pandas reads that has the first [n] columns of the
    schema, for any [n] below 15, is repaired to the header of the schema
    itself: when [write_to_csv] returns, the rows pandas wrote back end
    with one sentinel for each of the [15 - n] columns added, and the row
    appended stands under the header, column by column. *)
Theorem append_after_repair_of_a_prefix (row : list (string * pyval)) (path : string)
  (w w' : world) (n : nat) (rows : list (list string)) :
  pandas_reads path w ->
  n < 15 ->
  files w !! path = Some (firstn n get_required_fields :: rows) ->
  write_to_csv row path w = (Done tt, w') ->
  files w' !! path =
    Some (get_required_fields
          :: map (fun r => r ++ repeat sentinel (15 - n))
                 (pd_rows (firstn n get_required_fields) rows)
          ++ [table_row row]) /\
  length (table_row row) = length get_required_fields.
Proof.
  intros _ Hn Hfile Hrun.
  assert (Hmiss : exists m missing,
             List.filter (fun c => negb (mem c (firstn n get_required_fields)))
                         get_required_fields = m :: missing /\
             firstn n get_required_fields ++ m :: missing = get_required_fields /\
             map (fun _ : string => sentinel) (m :: missing) = repeat sentinel (15 - n)).
  { exists (hd "" (skipn n get_required_fields)), (tl (skipn n get_required_fields)).
    do 15 (destruct n as [|n]; [repeat split; vm_compute; reflexivity|]). lia. }
  destruct Hmiss as (m & missing & Hfilter & Hprefix & Hsent).
  split; [|reflexivity].
  rewrite (append_after_repair_on_prefix row path w w' _ rows m missing
             Hfile Hfilter Hprefix Hrun).
  assert (Hmap : map (fun r => r ++ map (fun _ : string => sentinel) (m :: missing))
                     (pd_rows (firstn n get_required_fields) rows)
                 = map (fun r => r ++ repeat sentinel (15 - n))
                       (pd_rows (firstn n get_required_fields) rows)).
  { apply map_ext. intros r. by rewrite Hsent. }
  by rewrite Hmap.
Qed.

End Program.

(** ** The recursion bound of the JSON reader is never reached *)

Lemma lstrip_with_length (p : ascii -> bool) (l : list ascii) :
  length (lstrip_with p l) <= length l.
Proof.
  induction l as [|c l IH]; simpl; [lia|]. destruct (p c); simpl; lia.
Qed.

Lemma skip_ws_length (l : list ascii) : length (skip_ws l) <= length l.
Proof. apply lstrip_with_length. Qed.

Lemma skip_ws_cons (l : list ascii) (c : ascii) (r : list ascii) :
  skip_ws l = c :: r -> length r < length l.
Proof.
  intros H. pose proof (skip_ws_length l) as Hl. rewrite H in Hl. simpl in Hl. lia.
Qed.

Lemma scan_string_consumes (l acc : list ascii) (s : string) (r : list ascii) :
  scan_string l acc = Ok s r -> length r < length l.
Proof.
  remember (length l) as n eqn:Hn. revert l acc Hn.
  induction n as [n IH] using lt_wf_ind. intros l acc Hn H. subst n.
  destruct l as [|c t]; [discriminate|].
  cbn [scan_string] in H.
  repeat match type of H with
         | Starved = Ok _ _ => discriminate H
         | Bad = Ok _ _ => discriminate H
         | Ok _ _ = Ok _ _ => injection H as <- <-; simpl; lia
         | scan_string ?l' ?a = Ok _ _ =>
             eapply (IH (length l')) in H; [| simpl; lia | reflexivity]; simpl in *; lia
         | context [match ?x with _ => _ end] => destruct x eqn:?
         end.
Qed.

Lemma span_digits_length (l ds r : list ascii) :
  span_digits l = (ds, r) -> length r <= length l.
Proof.
  revert ds r. induction l as [|c t IH]; intros ds r H; simpl in H.
  - injection H as <- <-. simpl. lia.
  - destruct (is_digit c).
    + destruct (span_digits t) as [ds' r'] eqn:E. injection H as <- <-.
      specialize (IH _ _ eq_refl). simpl. lia.
    + injection H as <- <-. simpl. lia.
Qed.

Lemma take_sign_length (l s r : list ascii) :
  take_sign l = (s, r) -> length r <= length l.
Proof.
  destruct l as [|c t]; cbn [take_sign].
  - intros H; inversion H; subst. cbn [length] in *. lia.
  - destruct (is_char "-" c); intros H; inversion H; subst; cbn [length] in *; lia.
Qed.

Lemma take_int_consumes (l ds r : list ascii) :
  take_int l = Some (ds, r) -> length r < length l.
Proof.
  destruct l as [|c t]; cbn [take_int]; [discriminate|].
  destruct (is_char "0" c); [intros H; inversion H; subst; cbn [length] in *; lia|].
  destruct (is_digit c); [|discriminate].
  destruct (span_digits t) as [ds' r'] eqn:E. apply span_digits_length in E.
  intros H. inversion H. subst. cbn [length] in *. lia.
Qed.

Lemma take_frac_length (l f r : list ascii) :
  take_frac l = (f, r) -> length r <= length l.
Proof.
  destruct l as [|p t]; cbn [take_frac].
  - intros H; inversion H; subst. cbn [length] in *. lia.
  - destruct (is_char "." p); [|intros H; inversion H; subst; cbn [length] in *; lia].
    destruct (span_digits t) as [[|d ds] r'] eqn:E; apply span_digits_length in E;
      intros H; inversion H; subst; cbn [length] in *; lia.
Qed.

Lemma take_exp_length (l x r : list ascii) :
  take_exp l = (x, r) -> length r <= length l.
Proof.
  destruct l as [|e t]; cbn [take_exp].
  - intros Heq; inversion Heq; subst. cbn [length] in *. lia.
  - destruct (is_char "e" e || is_char "E" e); [|intros Heq; inversion Heq; subst; cbn [length] in *; lia].
    destruct (take_exp_sign t) as [sg r'] eqn:Esg.
    assert (Hsg : length r' <= length t).
    { destruct t as [|s r'']; cbn [take_exp_sign] in Esg;
        [inversion Esg; subst; cbn [length]; lia|].
      destruct (is_char "-" s || is_char "+" s); inversion Esg; subst; cbn [length]; lia. }
    destruct (span_digits r') as [[|d ds] r''] eqn:E; apply span_digits_length in E;
      intros Heq; inversion Heq; subst; cbn [length] in *; lia.
Qed.

Lemma scan_number_consumes (l : list ascii) (v : pyval) (r : list ascii) :
  scan_number l = Some (v, r) -> length r < length l.
Proof.
  unfold scan_number.
  destruct (take_sign l) as [sign l1] eqn:E1. apply take_sign_length in E1.
  destruct (take_int l1) as [[int_ds r1]|] eqn:E2; [|discriminate].
  apply take_int_consumes in E2.
  destruct (take_frac r1) as [frac r2] eqn:E3. apply take_frac_length in E3.
  destruct (take_exp r2) as [exp r3] eqn:E4. apply take_exp_length in E4.
  destruct frac, exp; intros H; inversion H; subst; cbn [length] in *; lia.
Qed.

Lemma starts_with_length (p l : list ascii) :
  starts_with p l = true -> length p <= length l.
Proof.
  revert l. induction p as [|a p IH]; intros [|b l]; simpl; try lia; try discriminate.
  intros H. apply andb_true_iff in H as [_ H]. apply IH in H. lia.
Qed.

Lemma scan_constant_consumes (l : list ascii) (v : pyval) (r : list ascii) :
  scan_constant l = Some (v, r) -> length r < length l.
Proof.
  unfold scan_constant. intros H.
  repeat match type of H with
         | context [starts_with ?p l] =>
             let E := fresh "E" in
             destruct (starts_with p l) eqn:E;
             [apply starts_with_length in E; cbn [chars list_ascii_of_string length] in E;
              inversion H; subst; rewrite length_skipn; lia|]
         | context [scan_number l] =>
             let E := fresh "E" in
             destruct (scan_number l) as [[? ?]|] eqn:E;
             [apply scan_number_consumes in E; inversion H; subst; exact E|]
         end.
  discriminate H.
Qed.

Lemma scan_string_not_starved (l acc : list ascii) : scan_string l acc <> Starved.
Proof.
  remember (length l) as n eqn:Hn. revert l acc Hn.
  induction n as [n IH] using lt_wf_ind. intros l acc Hn H. subst n.
  destruct l as [|c t]; [discriminate|].
  cbn [scan_string] in H.
  repeat match type of H with
         | Bad = Starved => discriminate H
         | Ok _ _ = Starved => discriminate H
         | scan_string ?l' ?a = Starved =>
             eapply (IH (length l')) in H; [done | simpl; lia | reflexivity]
         | context [match ?x with _ => _ end] => destruct x eqn:?
         end.
Qed.

(** Case analysis along the reader, and what each successful step tells
    about the lengths of the texts. *)
Ltac scan_cases H :=
  repeat match type of H with
         | context [match ?x with _ => _ end] => destruct x eqn:?
         end.

Ltac scan_lengths Honce Hmembers Helements :=
  repeat match goal with
         | E : scan_string _ _ = Ok _ _ |- _ => apply scan_string_consumes in E
         | E : skip_ws _ = _ :: _ |- _ => apply skip_ws_cons in E
         | E : scan_constant _ = Some _ |- _ => apply scan_constant_consumes in E
         | E : scan_once _ _ = Ok _ _ |- _ => apply Honce in E
         | E : scan_members _ _ _ = Ok _ _ |- _ => apply Hmembers in E
         | E : scan_elements _ _ _ = Ok _ _ |- _ => apply Helements in E
         | E : Ok _ _ = Ok _ _ |- _ => inversion E; subst; clear E
         end;
  repeat match goal with
         | E : context [length (skip_ws ?x)] |- _ =>
             lazymatch goal with
             | _ : length (skip_ws x) <= length x |- _ => fail
             | _ => pose proof (skip_ws_length x)
             end
         end;
  cbn [length] in *.

Lemma scan_consumes (fuel : nat) :
  (forall l v r, scan_once fuel l = Ok v r -> length r < length l) /\
  (forall l acc v r, scan_members fuel l acc = Ok v r -> length r < length l) /\
  (forall l acc v r, scan_elements fuel l acc = Ok v r -> length r < length l).
Proof.
  induction fuel as [|f (Honce & Hmembers & Helements)]; [by repeat split|].
  split; [|split].
  - intros l v r H. cbn [scan_once] in H. scan_cases H; try discriminate H;
      scan_lengths Honce Hmembers Helements; lia.
  - intros l acc v r H. cbn [scan_members] in H. scan_cases H; try discriminate H;
      scan_lengths Honce Hmembers Helements; lia.
  - intros l acc v r H. cbn [scan_elements] in H. scan_cases H; try discriminate H;
      scan_lengths Honce Hmembers Helements; lia.
Qed.

Ltac fuel_bound :=
  cbn [length];
  try match goal with
      | |- context [length (skip_ws ?x)] => pose proof (skip_ws_length x)
      end;
  lia.

Ltac starved_contra Honce Hmembers Helements :=
  match goal with
  | E : scan_string _ _ = Starved |- _ => by apply scan_string_not_starved in E
  | E : scan_once _ _ = Starved |- _ => apply Honce in E; [done | fuel_bound]
  | E : scan_members _ _ _ = Starved |- _ => apply Hmembers in E; [done | fuel_bound]
  | E : scan_elements _ _ _ = Starved |- _ => apply Helements in E; [done | fuel_bound]
  end.

Lemma scan_fed (fuel : nat) :
  (forall l, 2 * length l < fuel -> scan_once fuel l <> Starved) /\
  (forall l acc, 2 * length l < fuel -> scan_members fuel l acc <> Starved) /\
  (forall l acc, 2 * length l + 1 < fuel -> scan_elements fuel l acc <> Starved).
Proof.
  induction fuel as [|f (Honce & Hmembers & Helements)].
  { repeat split; intros; lia. }
  destruct (scan_consumes f) as (Conce & Cmembers & Celements).
  split; [|split].
  - intros l Hlen H. cbn [scan_once] in H. scan_cases H; try discriminate H;
      scan_lengths Conce Cmembers Celements;
      starved_contra Honce Hmembers Helements.
  - intros l acc Hlen H. cbn [scan_members] in H. scan_cases H; try discriminate H;
      scan_lengths Conce Cmembers Celements;
      starved_contra Honce Hmembers Helements.
  - intros l acc Hlen H. cbn [scan_elements] in H. scan_cases H; try discriminate H;
      scan_lengths Conce Cmembers Celements;
      starved_contra Honce Hmembers Helements.
Qed.

(** [json_decode] always decides: it reads a value or rejects the text. *)
Lemma json_decode_decides (s : string) : json_decode s <> Starved.
Proof.
  unfold json_decode.
  destruct (scan_fed (2 * S (length (skip_ws (chars s))))) as (Honce & _).
  specialize (Honce (skip_ws (chars s))).
  destruct (scan_once _ _) as [v r| |]; [by destruct (skip_ws r) | done | ].
  intros _. apply Honce; [lia | reflexivity].
Qed.

Lemma json_loads_none (s : string) : json_loads s = None <-> json_decode s = Bad.
Proof.
  unfold json_loads. pose proof (json_decode_decides s).
  by destruct (json_decode s).
Qed.

(** ** The repair pass on concrete texts *)

(** C3 (the code does otherwise): on the one-line text [{'a': 'b'}], which
    differs from valid JSON by its single quotes only, the first two
    substitutions of [fix_json_string] give valid JSON, and the third puts a
    backslash before every double quote but the last; the result is not
    JSON and the second [json.loads] raises.  The same happens to the text
    [{a: 1}], whose key is not quoted. *)
Theorem fix_json_string_breaks_one_line_text :
  let text := "{'a': 'b'}" in
  let escaped := bs +:+ dq in
  json_decode text = Bad /\
  json_decode (py_replace_char squote dquote (re_sub re_bare_key
                 [Ref 1; Lit dq; Ref 2; Lit (dq +:+ ":")] text))
    = Ok (PDict [("a", PStr "b")]) [] /\
  fix_json_string text
    = "{" +:+ escaped +:+ "a" +:+ escaped +:+ ": " +:+ escaped +:+ "b" +:+ dq +:+ "}" /\
  json_decode (fix_json_string text) = Bad /\
  (forall json_error,
     parse_content json_error text = Raised (json_error (fix_json_string text))) /\
  fix_json_string "{a: 1}" = "{" +:+ escaped +:+ "a" +:+ dq +:+ ": 1}" /\
  json_decode (fix_json_string "{a: 1}") = Bad.
Proof.
  cbv zeta.
  repeat match goal with |- _ /\ _ => split end;
    try intros json_error; vm_compute; reflexivity.
Qed.

(** The third substitution needs the rest of the text up to its end to be
    free of line breaks: where a line break follows, no quote is touched and
    the repair works. *)
Example fix_json_string_on_three_lines :
  let nl := String newline EmptyString in
  json_decode (fix_json_string ("{" +:+ nl +:+ "'a': 'b'," +:+ nl +:+ "c: 1" +:+ nl +:+ "}"))
  = Ok (PDict [("a", PStr "b"); ("c", PInt 1)]) [].
Proof. vm_compute. reflexivity. Qed.

Example clean_project_name_example :
  clean_project_name "  My   Home's -- Avatar (Phase 2)!  " = "My Home s Avatar Phase 2".
Proof. vm_compute. reflexivity. Qed.

Example strip_fences_example :
  strip_fences (py_strip " ```{}``` ") = "{}".
Proof. vm_compute. reflexivity. Qed.

(** ** Runs on concrete inputs *)

(** C4, as stated, fails: with the service down, the client builds the
    fallback record for [Lake Vista] and [process_single_project] returns
    it with the status [partial], not [error]. *)
Lemma fallback_record_is_counted_partial :
  ~ (forall (service : list event -> string -> reply)
            (project_name results_csv : string) (w : world) r w' e,
        process_single_project service as_is as_is as_is frozen_clock rows_as_read
                               codec_error project_name results_csv w = (Done r, w') ->
        data r = fallback_record project_name e ->
        status r = "error" /\ status r <> "partial").
Proof.
  intros H.
  destruct (process_single_project service_down as_is as_is as_is frozen_clock rows_as_read
              codec_error "Lake Vista" "output/results.csv" empty_world) as [out w'] eqn:E.
  assert (Hout : out = Done (Result "partial" (Some (PStr "timed out"))
                                    (fallback_record "Lake Vista" "timed out"))).
  { apply (f_equal fst) in E. cbn [fst] in E. rewrite <- E. vm_compute. reflexivity. }
  subst out.
  destruct (H _ _ _ _ _ _ "timed out" E eq_refl) as [Hs _].
  discriminate Hs.
Qed.



Lemma empty_pandas_reads (path : string) : pandas_reads path empty_world.
Proof. intros table H. cbn [empty_world files] in H. by rewrite lookup_empty in H. Qed.



(** With the service down, the record for [Lake Vista] has the field
    [Why]. *)
Lemma get_info_has_every_required_field_witness :
  exists d w',
    get_info_from_perplexity service_down as_is "Lake Vista" empty_world = (Done (PDict d), w') /\
    dict_mem "Why" d = true.
Proof.
  destruct (get_info_has_every_required_field service_down as_is "Lake Vista" empty_world)
    as (_ & d & w' & Hget & Hkeys).
  exists d, w'. split; [exact Hget|].
  apply Hkeys. vm_compute. tauto.
Defined.

(** With the service down, the three attempts for [Lake Vista] time out and
    the fallback record comes back after sleeps of 5 and 10. *)
Lemma get_info_fallback_witness :
  exists fb,
    get_info_from_perplexity service_down as_is "Lake Vista" empty_world =
      (Done (PDict fb),
       World ∅ [Fetch "Lake Vista"; Post "Lake Vista"; Sleep 5;
                Post "Lake Vista"; Sleep 10; Post "Lake Vista"]) /\
    dict_get "Project Name" fb = Some (PStr "Lake Vista") /\
    dict_get "error" fb = Some (PStr "timed out") /\
    dict_get "Source URLs" fb = Some (PList []) /\
    dict_get "Location" fb = Some (PStr sentinel).
Proof.
  destruct (get_info_fallback_after_three_failures service_down as_is "Lake Vista" empty_world)
    as [_ H].
  destruct (H "timed out" "timed out" "timed out") as (fb & Hget & Hn & He & Hs & Hrest & _);
    [reflexivity | reflexivity | reflexivity |].
  exists fb. split; [exact Hget|]. split; [exact Hn|]. split; [exact He|]. split; [exact Hs|].
  apply Hrest; [vm_compute; tauto | discriminate | discriminate].
Defined.

(** With the service down and an empty store, the fallback record for
    [Lake Vista] is returned as [partial]: it has the key [error]. *)
Lemma classification_witness :
  exists r w' d,
    process_single_project service_down as_is as_is as_is frozen_clock rows_as_read
                           codec_error "Lake Vista" "output/results.csv" empty_world
    = (Done r, w') /\
    status r = "partial" /\ data r = PDict d /\ dict_mem "error" d = true.
Proof.
  destruct (process_single_project service_down as_is as_is as_is frozen_clock rows_as_read
              codec_error "Lake Vista" "output/results.csv" empty_world) as [out w'] eqn:E.
  assert (Hout : out = Done (Result "partial" (Some (PStr "timed out"))
                                    (fallback_record "Lake Vista" "timed out"))).
  { apply (f_equal fst) in E. cbn [fst] in E. rewrite <- E. vm_compute. reflexivity. }
  subst out.
  destruct (classification_follows_error_key service_down as_is as_is as_is frozen_clock
              rows_as_read codec_error "Lake Vista" "output/results.csv" empty_world _ _
              (empty_pandas_reads "output/results.csv") E)
    as (d & w1 & _ & _ & _ & _ & Hpartial & _).
  destruct (Hpartial eq_refl) as (Hmem & Hdata & _).
  eexists _, w', d. split; [reflexivity|]. split; [reflexivity|]. split; [exact Hdata|exact Hmem].
Defined.




(** A record with an [error] key and without [Location]: the row written
    ends the file and its fifth cell is the sentinel. *)
Lemma flatten_witness :
  dict_get "Location" (_flatten as_is as_is [("Project Name", PStr "A"); ("error", PStr "boom")])
    = Some sentinel /\
  exists w' earlier,
    write_to_csv as_is as_is rows_as_read codec_error
                 [("Project Name", PStr "A"); ("error", PStr "boom")]
                 "output/results.csv" empty_world = (Done tt, w') /\
    files w' !! "output/results.csv"
      = Some (earlier ++ [table_row as_is as_is [("Project Name", PStr "A"); ("error", PStr "boom")]]).
Proof.
  destruct (flatten_keeps_exactly_the_schema as_is as_is rows_as_read codec_error
              [("Project Name", PStr "A"); ("error", PStr "boom")])
    as (_ & _ & Hmissing & _ & _ & _ & Hwrite).
  split.
  - apply Hmissing; [vm_compute; tauto | reflexivity].
  - destruct (write_to_csv as_is as_is rows_as_read codec_error
                [("Project Name", PStr "A"); ("error", PStr "boom")]
                "output/results.csv" empty_world) as [[[]|e] w'] eqn:E.
    + destruct (Hwrite _ _ _ E) as (earlier & Hfile). eauto.
    + exfalso. apply (f_equal fst) in E. vm_compute in E. discriminate E.
Defined.

(** The repair of a table without [Open Space], with pandas writing the
    old row back as it read it. *)
Lemma append_after_repair_witness :
  exists w',
    write_to_csv as_is as_is rows_as_read codec_error [("Open Space", PStr "40%")]
                 "output/results.csv"
                 (World {[ "output/results.csv" :=
                             [List.filter (fun c => negb (String.eqb c "Open Space"))
                                          get_required_fields; []] ]} [])
      = (Done tt, w') /\
    table_row as_is as_is [("Open Space", PStr "40%")] !! 7 = Some "40%".
Proof.
  destruct (append_after_repair_misaligns as_is as_is rows_as_read codec_error
              [("Open Space", PStr "40%")] [])
    as (out & w' & Hrun & Hiff & _ & _ & _ & _ & Hcell & _).
  assert (Hout : out = Done tt) by (apply Hiff; vm_compute; reflexivity).
  subst out. exists w'. split; [exact Hrun | exact Hcell].
Defined.

(** ** Stripping *)

Lemma chars_str_of (l : list ascii) : chars (str_of l) = l.
Proof. apply list_ascii_of_string_of_list_ascii. Qed.


Lemma length_chars (s : string) : length (chars s) = String.length s.
Proof. induction s as [|c s IH]; [done|]. cbn. by rewrite <- IH. Qed.

Lemma lstrip_with_head (p : ascii -> bool) (l : list ascii) (c : ascii) (t : list ascii) :
  lstrip_with p l = c :: t -> p c = false.
Proof.
  induction l as [|a l IH]; [discriminate|]. cbn [lstrip_with].
  destruct (p a) eqn:E; [exact IH|]. by intros [= <- _].
Qed.

Lemma lstrip_with_fixed (p : ascii -> bool) (c : ascii) (t : list ascii) :
  p c = false -> lstrip_with p (c :: t) = c :: t.
Proof. intros H. cbn [lstrip_with]. by rewrite H. Qed.

Lemma lstrip_with_suffix (p : ascii -> bool) (l : list ascii) :
  exists pre, l = pre ++ lstrip_with p l.
Proof.
  induction l as [|a l [pre IH]]; [by exists []|]. cbn [lstrip_with].
  destruct (p a); [|by exists []]. exists (a :: pre). cbn [app]. by rewrite <- IH.
Qed.

Lemma lstrip_with_snoc (p : ascii -> bool) (l : list ascii) (c : ascii) :
  p c = false -> exists l', lstrip_with p (l ++ [c]) = l' ++ [c].
Proof.
  intros Hc. induction l as [|a l [l' IH]]; cbn [app lstrip_with].
  - rewrite Hc. by exists [].
  - destruct (p a); [eauto|]. by exists (a :: l).
Qed.

(** What [strip] leaves is empty, or begins and ends with characters it
    does not strip, and it is a part of the text. *)
Lemma strip_with_shape (p : ascii -> bool) (l : list ascii) :
  (strip_with p l = [] \/
   exists a mid b, p a = false /\ p b = false /\
                   (strip_with p l = [a] /\ a = b \/ strip_with p l = a :: mid ++ [b]))
  /\ exists pre post, l = pre ++ strip_with p l ++ post.
Proof.
  unfold strip_with.
  destruct (lstrip_with_suffix p l) as [pre Hpre].
  destruct (lstrip_with_suffix p (rev (lstrip_with p l))) as [post Hpost].
  assert (Hl1 : lstrip_with p l = rev (lstrip_with p (rev (lstrip_with p l))) ++ rev post).
  { apply (f_equal (@rev ascii)) in Hpost.
    by rewrite rev_involutive, rev_app_distr in Hpost. }
  split.
  - destruct (lstrip_with p (rev (lstrip_with p l))) as [|b m] eqn:Hm; [by left|].
    right. pose proof (lstrip_with_head _ _ _ _ Hm) as Hb.
    cbn [rev] in *.
    destruct (rev m) as [|a mid] eqn:Hrm; cbn [app] in *.
    + exists b, [], b. split; [done|]. split; [done|]. by left.
    + exists a, mid, b.
      pose proof (lstrip_with_head p l a ((mid ++ [b]) ++ rev post)) as Ha.
      split; [by apply Ha|]. split; [done|]. by right.
  - exists pre, (rev post). by rewrite <- Hl1.
Qed.

Lemma strip_with_fixed (p : ascii -> bool) (l : list ascii) :
  (l = [] \/ exists a mid b, p a = false /\ p b = false /\
                             (l = [a] /\ a = b \/ l = a :: mid ++ [b])) ->
  strip_with p l = l.
Proof.
  unfold strip_with.
  intros [-> | (a & mid & b & Ha & Hb & [[-> ->] | ->])]; [done| |].
  - cbn [lstrip_with rev app]. rewrite Hb. cbn [rev app lstrip_with]. by rewrite Hb.
  - rewrite lstrip_with_fixed by done.
    change (a :: mid ++ [b]) with ((a :: mid) ++ [b]).
    rewrite rev_app_distr. cbn [rev app].
    rewrite lstrip_with_fixed by done.
    change (b :: rev mid ++ [a]) with ([b] ++ rev (a :: mid)).
    rewrite rev_app_distr, rev_involutive. done.
Qed.

Lemma strip_with_idempotent (p : ascii -> bool) (l : list ascii) :
  strip_with p (strip_with p l) = strip_with p l.
Proof. apply strip_with_fixed, strip_with_shape. Qed.


(** ** What [main] passes on *)







Lemma results_path_dirname (output_filename : string) :
  has_dirname (results_path output_filename) = true.
Proof.
  unfold results_path, os_path_join.
  destruct (py_startswith "/" output_filename) eqn:E; [|reflexivity].
  destruct output_filename as [|c f]; [discriminate E|].
  unfold py_startswith in E. cbn [chars list_ascii_of_string starts_with] in E.
  apply andb_true_iff in E as [E _].
  apply Ascii.eqb_eq in E. by subst c.
Qed.

Lemma results_path_alias (output_filename : string) :
  results_path output_filename = default_error_log ->
  output_filename = "error_log.csv".
Proof.
  unfold results_path, os_path_join.
  destruct (py_startswith "/" output_filename) eqn:E.
  - destruct output_filename as [|c f]; [discriminate E|].
    unfold py_startswith in E. cbn [chars list_ascii_of_string starts_with] in E.
    apply andb_true_iff in E as [E _].
    apply Ascii.eqb_eq in E. subst c. intros H. discriminate H.
  - intros H. by injection H.
Qed.

(** X18: the results path [main] builds from the file name of the sidebar
    always has a directory part, so that [os.makedirs] never raises on it;
    and it is the path of the error log exactly for the file name
    [error_log.csv]. *)
Theorem results_path_has_directory (output_filename : string) :
  has_dirname (results_path output_filename) = true /\
  (results_path output_filename = default_error_log <-> output_filename = "error_log.csv").
Proof.
  split; [apply results_path_dirname|]. split.
  - apply results_path_alias.
  - by intros ->.
Qed.


(** ** The substitutions of [clean_project_name] *)

Lemma sub_scan_punct (rest : list ascii) :
  forall n prev pos, length rest < n ->
    sub_scan n re_punct [Lit " "] prev pos rest = map blank_punct rest.
Proof.
  induction rest as [|c t IH]; intros [|n] prev pos Hn; cbn [length] in Hn; try lia.
  - reflexivity.
  - cbn [sub_scan]. unfold re_punct at 1. cbn [rmatch m_rest].
    unfold blank_punct at 1. cbn [map].
    destruct (is_word c || is_space c); cbn [negb].
    + rewrite IH by lia. reflexivity.
    + cbn [advance m_pos m_prev m_rest m_caps].
      replace (pos <? S pos) with true by (symmetry; apply Nat.ltb_lt; lia).
      rewrite IH by lia. reflexivity.
Qed.

Lemma star_class_step (p : ascii -> bool) c t prev pos caps :
  rmatch (Star (Class p)) (MState prev pos (c :: t) caps) Some =
  if p c then
    if pos <? S pos then
      match rmatch (Star (Class p)) (MState (Some c) (S pos) t caps) Some with
      | Some out => Some out
      | None => Some (MState prev pos (c :: t) caps)
      end
    else Some (MState prev pos (c :: t) caps)
  else Some (MState prev pos (c :: t) caps).
Proof.
  cbn [rmatch m_rest length]. destruct (p c); [|reflexivity].
  cbn [advance m_pos]. destruct (pos <? S pos); reflexivity.
Qed.

Lemma star_class (p : ascii -> bool) (rest : list ascii) :
  forall prev pos caps,
  exists prev' pos',
    rmatch (Star (Class p)) (MState prev pos rest caps) Some
    = Some (MState prev' pos' (lstrip_with p rest) caps) /\ pos <= pos'.
Proof.
  induction rest as [|c t IH]; intros prev pos caps.
  - exists prev, pos. split; [reflexivity|lia].
  - destruct (IH (Some c) (S pos) caps) as (prev' & pos' & Hrec & Hle).
    rewrite star_class_step. cbn [lstrip_with].
    destruct (p c).
    + exists prev', pos'. split; [|lia].
      replace (pos <? S pos) with true by (symmetry; apply Nat.ltb_lt; lia).
      by rewrite Hrec.
    + exists prev, pos. split; [reflexivity|lia].
Qed.

Lemma squeeze_in_run (l : list ascii) :
  squeeze true l = squeeze false (lstrip_with is_space l).
Proof.
  induction l as [|c t IH]; [done|]. cbn [squeeze lstrip_with].
  destruct (is_space c) eqn:E; [exact IH|]. cbn [squeeze]. by rewrite E.
Qed.

Lemma rmatch_spaces c t prev pos :
  rmatch re_spaces (MState prev pos (c :: t) []) Some =
  if is_space c then rmatch (Star (Class is_space)) (MState (Some c) (S pos) t []) Some
  else None.
Proof. unfold re_spaces, Plus. cbn [rmatch m_rest]. by destruct (is_space c). Qed.

Lemma sub_scan_spaces (n : nat) :
  forall rest prev pos, length rest < n ->
    sub_scan n re_spaces [Lit " "] prev pos rest = squeeze false rest.
Proof.
  induction n as [|n IH]; intros rest prev pos Hn; [lia|].
  destruct rest as [|c t]; [reflexivity|]. cbn [length] in Hn.
  cbn [sub_scan]. rewrite rmatch_spaces.
  cbn [squeeze]. destruct (is_space c).
  - destruct (star_class is_space t (Some c) (S pos) []) as (prev' & pos' & Hstar & Hle).
    rewrite Hstar. cbn [m_pos m_prev m_rest].
    replace (pos <? pos') with true by (symmetry; apply Nat.ltb_lt; lia).
    rewrite IH by (pose proof (lstrip_with_length is_space t); lia).
    by rewrite squeeze_in_run.
  - by rewrite IH by lia.
Qed.

(** [clean_project_name], without the regular expressions. *)
Lemma clean_project_name_unfold (name : string) :
  clean_project_name name
  = str_of (strip_with is_space (squeeze false (map blank_punct (chars name)))).
Proof.
  unfold clean_project_name, py_strip, re_sub.
  rewrite sub_scan_punct by (rewrite length_chars; lia).
  rewrite !chars_str_of.
  rewrite sub_scan_spaces; [done|].
  rewrite <- length_chars, chars_str_of. lia.
Qed.


(** A character of a cleaned name: a word character, or the space. *)
Lemma blank_punct_ok (c : ascii) :
  is_word (blank_punct c) || is_space (blank_punct c) = true.
Proof.
  unfold blank_punct. destruct (is_word c || is_space c) eqn:E; [exact E|reflexivity].
Qed.

Lemma squeeze_in_run_head (l : list ascii) (c : ascii) (t : list ascii) :
  squeeze true l = c :: t -> is_space c = false.
Proof.
  induction l as [|a l IH]; [discriminate|]. cbn [squeeze].
  destruct (is_space a) eqn:E; [exact IH|]. by intros [= <- _].
Qed.

Lemma squeeze_chars (l : list ascii) :
  Forall (fun c => is_word c || is_space c = true) l ->
  forall in_run,
    Forall (fun c => is_space c = false /\ is_word c = true \/ c = " "%char)
           (squeeze in_run l).
Proof.
  induction 1 as [|c l Hc Hl IH]; intros in_run; cbn [squeeze]; [constructor|].
  destruct (is_space c) eqn:E.
  - destruct in_run; [apply IH|]. constructor; [by right|apply IH].
  - constructor; [|apply IH]. left. split; [done|].
    rewrite ?E in Hc. by rewrite orb_false_r in Hc.
Qed.

Lemma squeeze_no_double_space (l : list ascii) :
  forall in_run pre post,
    squeeze in_run l <> pre ++ " "%char :: " "%char :: post.
Proof.
  induction l as [|c l IH]; intros in_run pre post; cbn [squeeze].
  - by destruct pre.
  - destruct (is_space c) eqn:E.
    + destruct in_run; [apply IH|].
      destruct pre as [|a pre]; cbn [app].
      * intros [= H]. by apply squeeze_in_run_head in H.
      * intros [= _ H]. by apply IH in H.
    + destruct pre as [|a pre]; cbn [app].
      * intros [= -> _]. discriminate E.
      * intros [= _ H]. by apply IH in H.
Qed.

Lemma map_blank_punct_ok (l : list ascii) :
  Forall (fun c => is_word c || is_space c = true) (map blank_punct l).
Proof.
  induction l as [|c l IH]; cbn [map]; constructor; [apply blank_punct_ok|exact IH].
Qed.

(** What [clean_project_name] leaves, on the characters of the text. *)
Lemma cleaned_chars (l : list ascii) :
  let r := strip_with is_space (squeeze false (map blank_punct l)) in
  Forall (fun c => is_space c = false /\ is_word c = true \/ c = " "%char) r /\
  (forall pre post, r <> pre ++ " "%char :: " "%char :: post) /\
  (forall t, r <> " "%char :: t) /\
  (forall t, r <> t ++ [" "%char]).
Proof.
  intros r. subst r.
  set (l2 := squeeze false (map blank_punct l)).
  destruct (strip_with_shape is_space l2) as [Hshape (pre0 & post0 & Hpart)].
  pose proof (squeeze_chars _ (map_blank_punct_ok l) false) as Hall. fold l2 in Hall.
  split; [|split; [|split]].
  - rewrite Hpart in Hall. apply Forall_app in Hall as [_ Hall].
    by apply Forall_app in Hall as [Hall _].
  - intros pre post Hr.
    apply (squeeze_no_double_space (map blank_punct l) false (pre0 ++ pre) (post ++ post0)).
    fold l2. rewrite Hpart at 1. rewrite Hr.
    by rewrite <- !app_assoc.
  - intros t Hr. destruct Hshape as [Hnil | (a & mid & b & Ha & Hb & [[H _] | H])];
      rewrite Hr in *; try discriminate; injection H as <-; discriminate Ha.
  - intros t Hr. destruct Hshape as [Hnil | (a & mid & b & Ha & Hb & [[H <-] | H])];
      rewrite Hr in *.
    + by destruct t.
    + change [a] with ([] ++ [a]) in H. apply app_inj_tail in H as [_ <-].
      discriminate Ha.
    + change (a :: mid ++ [b]) with ((a :: mid) ++ [b]) in H.
      apply app_inj_tail in H as [_ <-]. discriminate Hb.
Qed.


Lemma squeeze_fixed (l : list ascii) :
  Forall (fun c => is_space c = false /\ is_word c = true \/ c = " "%char) l ->
  (forall pre post, l <> pre ++ " "%char :: " "%char :: post) ->
  squeeze false l = l.
Proof.
  induction 1 as [|c l Hc Hl IH]; intros Hadj; [done|].
  assert (Htail : squeeze false l = l).
  { apply IH. intros pre post ->. by apply (Hadj (c :: pre) post). }
  cbn [squeeze]. destruct Hc as [[Hs _] | ->].
  - by rewrite Hs, Htail.
  - cbn [is_space]. replace (is_space " ") with true by reflexivity.
    f_equal. rewrite squeeze_in_run.
    destruct l as [|d l']; [done|].
    assert (Hd : is_space d = false).
    { apply Forall_cons in Hl as [[[Hd _] | ->] _]; [done|].
      by destruct (Hadj [] l'). }
    by rewrite lstrip_with_fixed.
Qed.

Lemma map_blank_punct_fixed (l : list ascii) :
  Forall (fun c => is_space c = false /\ is_word c = true \/ c = " "%char) l ->
  map blank_punct l = l.
Proof.
  induction 1 as [|c l Hc Hl IH]; [done|]. cbn [map]. rewrite IH. f_equal.
  unfold blank_punct. destruct Hc as [[_ ->] | ->]; reflexivity.
Qed.

(** X20: [clean_project_name] is idempotent: a cleaned name is left as it
    is. *)
Theorem clean_project_name_idempotent (name : string) :
  clean_project_name (clean_project_name name) = clean_project_name name.
Proof.
  rewrite (clean_project_name_unfold (clean_project_name name)).
  rewrite (clean_project_name_unfold name) at 1. rewrite chars_str_of.
  destruct (cleaned_chars (chars name)) as (Hall & Hadj & _).
  rewrite map_blank_punct_fixed by exact Hall.
  rewrite squeeze_fixed by done.
  rewrite strip_with_idempotent.
  by rewrite <- clean_project_name_unfold.
Qed.


(** ** Code fences *)

Lemma starts_with_prefix (p l : list ascii) :
  starts_with p l = true -> exists rest, l = p ++ rest.
Proof.
  revert l. induction p as [|a p IH]; intros l H; [by exists l|].
  destruct l as [|b l]; [discriminate|]. cbn [starts_with] in H.
  apply andb_true_iff in H as [Hab H]. apply Ascii.eqb_eq in Hab. subst b.
  destruct (IH l H) as [rest ->]. by exists rest.
Qed.

Lemma strip_with_keeps_head (p : ascii -> bool) (l : list ascii) (c : ascii)
  (t : list ascii) :
  lstrip_with p l = c :: t -> exists t', strip_with p l = c :: t'.
Proof.
  intros H. unfold strip_with. rewrite H. cbn [rev].
  destruct (lstrip_with_snoc p (rev t) c (lstrip_with_head _ _ _ _ H)) as [l' ->].
  rewrite rev_app_distr. cbn [rev app]. eauto.
Qed.

Lemma re_sub_keeps_head (r : regex) (tpl : list repl_item) (c : ascii) (t : list ascii) :
  rmatch r (MState None 0 (c :: t) []) Some = None ->
  exists t', re_sub r tpl (str_of (c :: t)) = str_of (c :: t').
Proof.
  intros H. unfold re_sub. rewrite chars_str_of. cbn [sub_scan]. rewrite H. eauto.
Qed.

(** A text that begins with the letter j is not JSON, and the repair pass
    leaves its first letter in place. *)
Lemma json_loads_after_j (t : list ascii) : json_loads (str_of ("j"%char :: t)) = None.
Proof. unfold json_loads, json_decode. rewrite chars_str_of. reflexivity. Qed.

Lemma fix_json_string_after_j (t : list ascii) :
  exists t', fix_json_string (str_of ("j"%char :: t)) = str_of ("j"%char :: t').
Proof.
  unfold fix_json_string.
  destruct (re_sub_keeps_head re_bare_key [Ref 1; Lit dq; Ref 2; Lit (dq +:+ ":")]
              "j"%char t eq_refl) as [t1 ->].
  unfold py_replace_char. rewrite chars_str_of. cbn [map].
  replace (Ascii.eqb "j" squote) with false by reflexivity.
  apply re_sub_keeps_head. reflexivity.
Qed.

(** X21: a reply that, once stripped, begins with a code fence followed by
    the language tag [json] is never parsed: the fence is taken off but the
    tag stays in front of the text, so that [json.loads] raises on it, and
    on what [fix_json_string] makes of it; the attempt raises. *)
Theorem fenced_reply_with_language_tag_fails
  (service : list event -> string -> reply) (json_error : string -> string)
  (history : list event) (original_name cleaned_name raw : string) :
  service history cleaned_name = Content raw ->
  py_startswith "```json" (py_strip raw) = true ->
  exists repaired,
    answer service json_error history original_name cleaned_name
    = Raised (json_error repaired).
Proof.
  intros Hreply Hfence. unfold answer. rewrite Hreply.
  unfold py_startswith in Hfence. apply starts_with_prefix in Hfence as [rest Hl].
  assert (Hcontent : exists t, strip_fences (py_strip raw) = str_of ("j"%char :: t)).
  { unfold strip_fences, py_startswith. rewrite Hl.
    replace (starts_with (chars "```") (chars "```json" ++ rest)) with true by reflexivity.
    unfold py_strip_chars at 1. rewrite Hl. unfold py_strip at 1. rewrite chars_str_of.
    edestruct (strip_with_keeps_head
                 (fun c => existsb (is_char c) (chars "`")) (chars "```json" ++ rest))
      as [t1 ->]; [reflexivity|].
    edestruct (strip_with_keeps_head is_space ("j"%char :: t1)) as [t2 ->]; [reflexivity|].
    eauto. }
  destruct Hcontent as [t ->].
  unfold parse_content. rewrite json_loads_after_j.
  destruct (fix_json_string_after_j t) as [t' ->].
  rewrite json_loads_after_j. eauto.
Qed.


(** ** From the text area to the table *)





(** ** The further properties on concrete inputs *)


Lemma array_reply_witness :
  exists w',
    get_info_from_perplexity service_array as_is "A" empty_world =
    (Done (fallback_record "A" "list indices must be integers or slices, not str"), w').
Proof.
  apply array_reply_ends_as_fallback.
  intros history. exists "[1, 2]", [PInt 1; PInt 2].
  split; [reflexivity | vm_compute; reflexivity].
Defined.

Lemma ensure_outcome_witness :
  ensure_csv_structure as_is rows_as_read "results.csv" empty_world
  = (Raised "[Errno 2] No such file or directory: ''", empty_world) /\
  exists e,
    ensure_csv_structure as_is rows_as_read "output/" empty_world = (Raised e, empty_world).
Proof.
  destruct (ensure_csv_structure_outcome as_is rows_as_read "results.csv" empty_world)
    as (_ & Hbare & _).
  destruct (ensure_csv_structure_outcome as_is rows_as_read "output/" empty_world)
    as (_ & _ & _ & Hdir & _).
  split.
  - apply Hbare. reflexivity.
  - apply Hdir; [reflexivity | apply lookup_empty | reflexivity].
Defined.

Lemma ensure_only_adds_witness :
  exists w' cols rows,
    ensure_csv_structure as_is rows_as_read "output/results.csv"
      (World {[ "output/results.csv" := [["Project Name"]; ["A"]] ]} []) = (Done tt, w') /\
    files w' !! "output/results.csv" = Some (cols :: rows) /\
    In "Why" cols.
Proof.
  destruct (ensure_csv_structure as_is rows_as_read "output/results.csv"
              (World {[ "output/results.csv" := [["Project Name"]; ["A"]] ]} []))
    as [r w'] eqn:E.
  assert (Hr : r = Done tt).
  { apply (f_equal fst) in E. cbn [fst] in E. rewrite <- E. vm_compute. reflexivity. }
  subst r.
  assert (Hreads : pandas_reads "output/results.csv"
                     (World {[ "output/results.csv" := [["Project Name"]; ["A"]] ]} [])).
  { intros table H. cbn [files] in H. rewrite lookup_singleton_eq in H.
    injection H as <-. cbn [readable length].
    split; [discriminate|]. split; [apply NoDup_singleton|].
    split; [intros [H|[]]; discriminate H|]. by repeat constructor. }
  destruct (ensure_csv_structure_only_adds as_is rows_as_read _ _ _ Hreads E)
    as (cols & rows & Hfile & Hall & _).
  exists w', cols, rows. split; [reflexivity|]. split; [exact Hfile|].
  apply Hall. vm_compute. tauto.
Defined.

Lemma write_to_csv_all_or_nothing_witness :
  exists w' table,
    write_to_csv as_is as_is rows_as_read codec_error [("Project Name", PStr "A")]
                 "output/results.csv" empty_world = (Done tt, w') /\
    files w' !! "output/results.csv"
    = Some (table ++ [table_row as_is as_is [("Project Name", PStr "A")]]) /\
    trace w' = [].
Proof.
  destruct (write_to_csv as_is as_is rows_as_read codec_error [("Project Name", PStr "A")]
              "output/results.csv" empty_world) as [r w'] eqn:E.
  assert (Hr : r = Done tt).
  { apply (f_equal fst) in E. cbn [fst] in E. rewrite <- E. vm_compute. reflexivity. }
  subst r.
  destruct (write_to_csv_all_or_nothing as_is as_is rows_as_read codec_error
              [("Project Name", PStr "A")] "output/results.csv" empty_world _ _
              (empty_pandas_reads "output/results.csv") E)
    as (Htrace & _ & Hdone & _).
  destruct (Hdone eq_refl) as (_ & w1 & table & _ & _ & Hfile).
  exists w', table. split; [reflexivity|]. split; [exact Hfile | exact Htrace].
Defined.

Lemma write_error_log_witness :
  exists w',
    write_error_log as_is as_is frozen_clock codec_error "A" (PStr "boom")
                    default_error_log empty_world = (Done tt, w') /\
    files w' !! default_error_log
      = Some [error_log_fields; ["A"; "boom"; "2025-01-01 00:00:00"]].
Proof.
  destruct (write_error_log as_is as_is frozen_clock codec_error "A" (PStr "boom")
              default_error_log empty_world) as [r w'] eqn:E.
  assert (Hr : r = Done tt).
  { apply (f_equal fst) in E. cbn [fst] in E. rewrite <- E. vm_compute. reflexivity. }
  subst r.
  destruct (write_error_log_appends as_is as_is frozen_clock codec_error "A" (PStr "boom")
              default_error_log empty_world _ _ E) as (_ & _ & Hdone & _).
  destruct (Hdone eq_refl) as (_ & _ & _ & _ & Hfile).
  exists w'. split; [reflexivity|]. exact Hfile.
Defined.



Lemma raises_without_directory_witness :
  exists w' stamp,
    process_single_project service_down as_is as_is as_is frozen_clock rows_as_read
                           codec_error "Lake Vista" "results.csv" empty_world
      = (Raised "[Errno 2] No such file or directory: ''", w') /\
    files w' !! default_error_log =
      Some ([error_log_fields]
            ++ [["Lake Vista"; "[Errno 2] No such file or directory: ''"; stamp]]).
Proof.
  destruct (process_single_project_raises_without_directory service_down as_is as_is as_is
              frozen_clock rows_as_read codec_error "Lake Vista" "results.csv" empty_world
              eq_refl)
    as (Hfits & _).
  destruct (Hfits eq_refl) as (w' & stamp & Hrun & _ & Hlog).
  exists w', stamp. split; [exact Hrun|]. exact Hlog.
Defined.


Lemma fails_fast_witness :
  exists e,
    process_project_list service_down as_is as_is as_is frozen_clock rows_as_read
                         codec_error ["A"] "results.csv" empty_world
    = (Raised e, empty_world).
Proof.
  apply process_project_list_fails_fast. intros [H _]. discriminate H.
Defined.


Lemma results_path_witness :
  has_dirname (results_path "results.csv") = true /\
  results_path "error_log.csv" = default_error_log.
Proof.
  split.
  - apply results_path_has_directory.
  - apply results_path_has_directory. reflexivity.
Defined.


Lemma fenced_reply_witness :
  exists repaired,
    answer service_fenced as_is [] "A" "A" = Raised (as_is repaired).
Proof.
  apply (fenced_reply_with_language_tag_fails service_fenced as_is [] "A" "A"
           "```json {}```").
  - reflexivity.
  - vm_compute. reflexivity.
Defined.

Lemma fill_required_witness :
  dict_get "Location" (fill_required [("Location", PNone)]) = Some PNone.
Proof.
  destruct (fill_required_keeps_values as_is as_is [("Location", PNone)]) as [H _].
  apply H. reflexivity.
Defined.

Lemma source_urls_witness :
  table_row as_is as_is [("Source URLs", PList [PStr "u1"; PStr "u2"])] !! 13
  = Some "u1, u2".
Proof.
  apply (source_urls_cell_is_the_join as_is as_is
           [("Source URLs", PList [PStr "u1"; PStr "u2"])] ["u1"; "u2"]).
  reflexivity.
Defined.

Lemma repair_of_a_prefix_witness :
  exists w',
    write_to_csv as_is as_is rows_as_read codec_error [("Why", PStr "x")]
                 "output/results.csv"
                 (World {[ "output/results.csv" := [firstn 10 get_required_fields; []] ]} [])
      = (Done tt, w') /\
    files w' !! "output/results.csv" =
      Some (get_required_fields
            :: map (fun r => r ++ repeat sentinel (15 - 10))
                   (rows_as_read (firstn 10 get_required_fields) [[]])
            ++ [table_row as_is as_is [("Why", PStr "x")]]).
Proof.
  destruct (write_to_csv as_is as_is rows_as_read codec_error [("Why", PStr "x")]
              "output/results.csv"
              (World {[ "output/results.csv" := [firstn 10 get_required_fields; []] ]} []))
    as [r w'] eqn:E.
  assert (Hr : r = Done tt).
  { apply (f_equal fst) in E. cbn [fst] in E. rewrite <- E. vm_compute. reflexivity. }
  subst r.
  destruct (append_after_repair_of_a_prefix as_is as_is rows_as_read codec_error
              [("Why", PStr "x")] "output/results.csv"
              (World {[ "output/results.csv" := [firstn 10 get_required_fields; []] ]} [])
              w' 10 [[]])
    as (Hfile & _).
  - intros table H. cbn [files] in H. rewrite lookup_singleton_eq in H.
    injection H as <-. cbn [readable].
    split; [discriminate|]. split; [apply (bool_decide_unpack _); vm_compute; exact I|].
    split.
    { intros H. vm_compute in H.
      repeat (destruct H as [H|H]; [discriminate H|]). exact H. }
    constructor; [cbn [length]; lia | constructor].
  - lia.
  - cbn [files]. apply lookup_singleton_eq.
  - exact E.
  - exists w'. split; [reflexivity | exact Hfile].
Defined.

